(** * hermione: the [openAndWait] browser command

    A shallow embedding of [src/browser/commands/openAndWait.ts] and the
    properties of its readiness coordination.

    The command is reactive: it registers handlers on a [PageLoader], hands
    it the navigation action and returns a promise.  The embedding keeps the
    closure of one invocation (the three readiness flags, the promise, the
    array of ignore patterns) as an explicit state and turns every handler
    into a transition on that state; the collaborators ([session.url], the
    page loader) are the environment and appear as the signals they send.
    The [finally] handler, which unsubscribes the page loader once the
    promise is settled, does not touch the promise and is left out. *)

From stdpp Require Import base strings gmap list pretty.

Open Scope string_scope.

(** ** JavaScript values used by the command *)

(** [String.prototype.includes]: [pat] occurs somewhere in [str]. *)
Fixpoint includes (str pat : string) : bool :=
  String.prefix pat str ||
  match str with
  | EmptyString => false
  | String _ rest => includes rest pat
  end.

(** [String.prototype.endsWith]: [str] is [suffix] or a tail of [str] ends
    with it. *)
Fixpoint endsWith (str suffix : string) : bool :=
  String.eqb str suffix ||
  match str with
  | EmptyString => false
  | String _ rest => endsWith rest suffix
  end.

(** A value that is a boolean or [undefined] ([None]); [undefined] is falsy. *)
Definition truthy (v : option bool) : bool := default false v.

(** A number or [undefined]; [0] and [undefined] are falsy. *)
Definition truthy_number (v : option Z) : bool :=
  match v with
  | Some n => negb (n =? 0)%Z
  | None => false
  end.

(** A destructuring default [x = d]: [d] is taken exactly when the property
    is [undefined]. *)
Definition or_default {A} (x d : option A) : option A :=
  match x with
  | Some a => Some a
  | None => d
  end.

(** [!!x] for a value that is an object or [undefined]. *)
Definition is_defined {A} (x : option A) : bool :=
  match x with
  | Some _ => true
  | None => false
  end.

(** [x &&= y]: assigns [y] when [x] is truthy, leaves [x] otherwise. *)
Definition and_assign (x : option bool) (y : bool) : option bool :=
  if truthy x then Some y else x.

(** [a || b] on numbers. *)
Definition or_number (a b : option Z) : option Z :=
  if truthy_number a then a else b.

Record Error := { message : string }.

(** The state of a promise. [resolve] and [reject] only act on a pending
    promise. *)
Inductive Promise :=
| pending
| fulfilled
| rejected (err : Error).

Definition resolve (p : Promise) : Promise :=
  match p with
  | pending => fulfilled
  | _ => p
  end.

Definition reject (err : Error) (p : Promise) : Promise :=
  match p with
  | pending => rejected err
  | _ => p
  end.

Definition is_pending (p : Promise) : bool :=
  match p with
  | pending => true
  | _ => false
  end.

(** A regular-expression object. [exec] returns the match array or [null]
    ([None]) together with the object after the call: a global or sticky
    expression keeps its [lastIndex] between calls. *)
Class RegExpEngine := {
  RegExp : Type;
  exec : RegExp -> string -> option (list string) * RegExp
}.

(** ** Network matches and their classification *)

(** webdriverio's [Matches], as far as the command reads it. The status code
    is an integer, printed in decimal by the template literal. *)
Record Matches := {
  url : string;
  headers : option (gmap string string);
  statusCode : Z
}.

(** [match.headers?.Accept?.includes(kind)]: [undefined] when the headers or
    the Accept header are missing. *)
Definition accept_includes (m : Matches) (kind : string) : option bool :=
  h ← headers m; a ← (h : gmap string string) !! "Accept"; Some (includes a kind).

(** The table [is] of the source; [_.isString(match.url)] holds by the type
    of [url]. *)
Module is_.
Definition image (m : Matches) : option bool := accept_includes m "image".
Definition stylesheet (m : Matches) : option bool := accept_includes m "text/css".
Definition font (m : Matches) : bool :=
  existsb (fun ext => endsWith (url m) ext) [".ttf"; ".woff"; ".woff2"].
Definition favicon (m : Matches) : bool := endsWith (url m) "/favicon.ico".
End is_.

Definition shouldThrowErrorDefault (m : Matches) : bool :=
  if is_.favicon m then false
  else truthy (is_.image m) || truthy (is_.stylesheet m) || is_.font m.

(** The events a page loader emits and the command subscribes to. *)
Module Event.
Inductive t :=
| pageLoadError (err : Error)
| selectorsError (err : Error)
| predicateError (err : Error)
| networkError (m : Matches)
| selectorsExist
| predicateResolved
| networkResolved.
End Event.

(** The outcome of a promise of a collaborator. *)
Inductive Outcome :=
| Done
| Failed (err : Error).

(** What the environment tells a running invocation: the promise of
    [session.url(uri)] settles, the page loader emits an event, the promise
    of [pageLoader.load(goToPage)] settles. *)
Inductive Signal :=
| url_settled (o : Outcome)
| emitted (e : Event.t)
| load_settled (o : Outcome).

Section Command.
Context `{RE : RegExpEngine}.
Context {Predicate : Type}.

Inductive Pattern :=
| PString (s : string)
| PRegExp (r : RegExp).

(** [string | string[]] *)
Inductive Selector :=
| OneSelector (s : string)
| Selectors (l : list string).

(** [config.openAndWaitOpts] *)
Record OpenAndWaitOpts := {
  cfg_timeout : option Z;
  cfg_waitNetworkIdle : bool;
  cfg_waitNetworkIdleTimeout : Z;
  cfg_failOnNetworkError : bool;
  cfg_ignoreNetworkErrorsPatterns : list Pattern
}.

(** [browser.config]; [openAndWaitOpts] is read with [?.] *)
Record Config := {
  browserName : string;
  automationProtocol : string;
  pageLoadTimeout : Z;
  openAndWaitOpts : option OpenAndWaitOpts
}.

(** The second argument of the command; every property is optional. *)
Record WaitOpts := {
  selector : option Selector;
  predicate : option Predicate;
  waitNetworkIdle : option bool;
  waitNetworkIdleTimeout : option Z;
  failOnNetworkError : option bool;
  shouldThrowError : option (Matches -> bool);
  ignoreNetworkErrorsPatterns : option (list Pattern);
  timeout : option Z
}.

(** [{}], the default of the second argument *)
Definition noOpts : WaitOpts :=
  {| selector := None; predicate := None; waitNetworkIdle := None;
     waitNetworkIdleTimeout := None; failOnNetworkError := None;
     shouldThrowError := None; ignoreNetworkErrorsPatterns := None;
     timeout := None |}.

Definition emptyPageUrl : string := "about:blank".

Definition isChrome (config : Config) : bool :=
  String.eqb (browserName config) "chrome".

Definition isCDP (config : Config) : bool :=
  String.eqb (automationProtocol config) "devtools".

(** One pattern against the URL, with the pattern after the call. *)
Definition test_pattern (str : string) (p : Pattern) : bool * Pattern :=
  match p with
  | PString s => (includes str s, p)
  | PRegExp r => let '(res, r') := exec r str in (is_defined res, PRegExp r')
  end.

(** [patterns.some(...)]: stops at the first pattern that matches; the
    patterns tried so far are returned in the state [exec] left them. *)
Fixpoint some_pattern (patterns : list Pattern) (str : string)
  : bool * list Pattern :=
  match patterns with
  | [] => (false, [])
  | p :: rest =>
      let '(hit, p') := test_pattern str p in
      if hit then (true, p' :: rest)
      else let '(found, rest') := some_pattern rest str in (found, p' :: rest')
  end.

(** [isMatchPatterns(patterns = [], str)] *)
Definition isMatchPatterns (patterns : option (list Pattern)) (str : string)
  : bool * option (list Pattern) :=
  match patterns with
  | None => (false, None)
  | Some ps => let '(found, ps') := some_pattern ps str in (found, Some ps')
  end.

(** The options of [new PageLoader(session, {...})]. *)
Record PageLoaderOpts := {
  pl_selectors : list string;
  pl_predicate : option Predicate;
  pl_timeout : option Z;
  pl_waitNetworkIdle : option bool;
  pl_waitNetworkIdleTimeout : option Z
}.

(** The calls the command makes on its collaborators before it returns. *)
Inductive Call :=
| session_url (uri : string)
| new_PageLoader (o : PageLoaderOpts)
| pageLoader_on (event : string)
| pageLoader_load (goToPage_uri : string).

(** The variables of one invocation that the handlers read and write. *)
Record Closure := {
  selectorsResolved : bool;
  predicateResolved : bool;
  networkResolved : bool;
  patterns : option (list Pattern);
  promise : Promise
}.

(** The variables the handlers only read. *)
Record Env := {
  env_failOnNetworkError : option bool;
  env_shouldThrowError : Matches -> bool
}.

Definition settle (f : Promise -> Promise) (c : Closure) : Closure :=
  {| selectorsResolved := selectorsResolved c;
     predicateResolved := predicateResolved c;
     networkResolved := networkResolved c;
     patterns := patterns c;
     promise := f (promise c) |}.

Definition handleError (err : Error) (c : Closure) : Closure :=
  settle (reject {| message := "url: " +:+ message err |}) c.

Definition checkLoaded (c : Closure) : Closure :=
  if selectorsResolved c && predicateResolved c && networkResolved c
  then settle resolve c
  else c.

Definition networkErrorMessage (m : Matches) : Error :=
  {| message := "url: couldn't get content from " +:+ url m +:+ ": "
                +:+ pretty (statusCode m) |}.

(** The handler of ["networkError"]. *)
Definition onNetworkError (env : Env) (m : Matches) (c : Closure) : Closure :=
  if negb (truthy (env_failOnNetworkError env)) then c
  else
    let '(shouldIgnore, ps) := isMatchPatterns (patterns c) (url m) in
    let c' := {| selectorsResolved := selectorsResolved c;
                 predicateResolved := predicateResolved c;
                 networkResolved := networkResolved c;
                 patterns := ps;
                 promise := promise c |} in
    if negb shouldIgnore && env_shouldThrowError env m
    then settle (reject (networkErrorMessage m)) c'
    else c'.

Definition set_selectorsResolved (c : Closure) : Closure :=
  {| selectorsResolved := true;
     predicateResolved := predicateResolved c;
     networkResolved := networkResolved c;
     patterns := patterns c;
     promise := promise c |}.

Definition set_predicateResolved (c : Closure) : Closure :=
  {| selectorsResolved := selectorsResolved c;
     predicateResolved := true;
     networkResolved := networkResolved c;
     patterns := patterns c;
     promise := promise c |}.

Definition set_networkResolved (c : Closure) : Closure :=
  {| selectorsResolved := selectorsResolved c;
     predicateResolved := predicateResolved c;
     networkResolved := true;
     patterns := patterns c;
     promise := promise c |}.

(** The handler registered for each event. *)
Definition handle (env : Env) (e : Event.t) (c : Closure) : Closure :=
  match e with
  | Event.pageLoadError err => handleError err c
  | Event.selectorsError err => handleError err c
  | Event.predicateError err => handleError err c
  | Event.networkError m => onNetworkError env m c
  | Event.selectorsExist => checkLoaded (set_selectorsResolved c)
  | Event.predicateResolved => checkLoaded (set_predicateResolved c)
  | Event.networkResolved => checkLoaded (set_networkResolved c)
  end.

(** A running invocation: either the promise of the blank-page branch,
    which only waits for [session.url(uri)], or the promise built around a
    page loader. *)
Inductive Running :=
| Navigating (p : Promise)
| Loading (env : Env) (c : Closure).

Record Invocation := {
  calls : list Call;
  running : Running
}.

Definition subscriptions : list string :=
  ["pageLoadError"; "selectorsError"; "predicateError"; "networkError";
   "selectorsExist"; "predicateResolved"; "networkResolved"].

(** [typeof selector === "string" ? [selector] : selector], after the
    default [selector = []]. *)
Definition selectors_of (s : option Selector) : list string :=
  match s with
  | None => []
  | Some (OneSelector s) => [s]
  | Some (Selectors l) => l
  end.

(** The caller's [waitNetworkIdle], defaulting to the session's. *)
Definition intended_waitNetworkIdle (config : Config) (opts : WaitOpts) : option bool :=
  or_default (waitNetworkIdle opts) (cfg_waitNetworkIdle <$> openAndWaitOpts config).

(** [waitNetworkIdle &&= isChrome || isCDP] *)
Definition effective_waitNetworkIdle (config : Config) (opts : WaitOpts) : option bool :=
  and_assign (intended_waitNetworkIdle config opts) (isChrome config || isCDP config).

(** The variables the handlers read: [failOnNetworkError] and
    [shouldThrowError] after their defaults. *)
Definition env_of (config : Config) (opts : WaitOpts) : Env :=
  {| env_failOnNetworkError :=
       or_default (failOnNetworkError opts)
                  (cfg_failOnNetworkError <$> openAndWaitOpts config);
     env_shouldThrowError :=
       default shouldThrowErrorDefault (shouldThrowError opts) |}.

Definition openAndWait (config : Config) (uri : string) (opts : WaitOpts) : Invocation :=
  let oaw := openAndWaitOpts config in
  let waitNetworkIdle := effective_waitNetworkIdle config opts in
  let waitNetworkIdleTimeout :=
    or_default (waitNetworkIdleTimeout opts) (cfg_waitNetworkIdleTimeout <$> oaw) in
  let ignoreNetworkErrorsPatterns :=
    or_default (ignoreNetworkErrorsPatterns opts) (cfg_ignoreNetworkErrorsPatterns <$> oaw) in
  let timeout :=
    or_default (timeout opts) (or_number (oaw ≫= cfg_timeout) (Some (pageLoadTimeout config))) in
  if String.eqb uri "" || String.eqb uri emptyPageUrl then
    {| calls := [session_url uri]; running := Navigating pending |}
  else
    let selectors := selectors_of (selector opts) in
    {| calls :=
         new_PageLoader
           {| pl_selectors := selectors;
              pl_predicate := predicate opts;
              pl_timeout := timeout;
              pl_waitNetworkIdle := waitNetworkIdle;
              pl_waitNetworkIdleTimeout := waitNetworkIdleTimeout |}
         :: (pageLoader_on <$> subscriptions) ++ [pageLoader_load uri];
       running :=
         Loading
           (env_of config opts)
           {| selectorsResolved := (length selectors =? 0)%nat;
              predicateResolved := negb (is_defined (predicate opts));
              networkResolved := negb (truthy waitNetworkIdle);
              patterns := ignoreNetworkErrorsPatterns;
              promise := pending |} |}.

(** The reaction of the promise built around a page loader to one signal:
    an event runs its handler, a fulfilled [load] calls [checkLoaded]; the
    outcome of [session.url] goes to the page loader, which called
    [goToPage], and a rejected [load] has no handler. *)
Definition react (env : Env) (c : Closure) (s : Signal) : Closure :=
  match s with
  | emitted e => handle env e c
  | load_settled Done => checkLoaded c
  | _ => c
  end.

(** The reaction of a running invocation to one signal. The blank-page
    promise has a fulfilment handler for [session.url(uri)] and nothing
    else. *)
Definition deliver (r : Running) (s : Signal) : Running :=
  match r with
  | Navigating p =>
      match s with
      | url_settled Done => Navigating (resolve p)
      | _ => Navigating p
      end
  | Loading env c => Loading env (react env c s)
  end.

Definition deliver_all (r : Running) (ss : list Signal) : Running :=
  foldl deliver r ss.

Definition outcome (r : Running) : Promise :=
  match r with
  | Navigating p => p
  | Loading _ c => promise c
  end.

End Command.

Arguments Pattern {RE}.
Arguments Closure {RE}.
Arguments Running {RE}.
Arguments Config {RE}.
Arguments OpenAndWaitOpts {RE}.
Arguments WaitOpts {RE} Predicate.
Arguments Invocation {RE Predicate}.

(** ** Readiness and error signals, in the words of the specification *)

Section Policy.
Context `{RE : RegExpEngine}.

(** A pattern matches a URL: a string by containment, a regular expression
    when its execution against the URL succeeds. *)
Definition pattern_matches (p : Pattern) (str : string) : bool :=
  match p with
  | PString s => includes str s
  | PRegExp r => is_defined (fst (exec r str))
  end.

(** The ignore patterns as they are when a signal arrives. *)
Definition current_patterns (r : Running) : list Pattern :=
  match r with
  | Navigating _ => []
  | Loading _ c => default [] (patterns c)
  end.

Definition all_resolved (c : Closure) : bool :=
  selectorsResolved c && predicateResolved c && networkResolved c.

(** The readiness flags after a signal: a resolution sets the flag of its
    watcher. *)
Definition resolved_after (s : Signal) (c : Closure) : bool :=
  match s with
  | emitted Event.selectorsExist => predicateResolved c && networkResolved c
  | emitted Event.predicateResolved => selectorsResolved c && networkResolved c
  | emitted Event.networkResolved => selectorsResolved c && predicateResolved c
  | _ => all_resolved c
  end.

(** The points at which readiness is checked: every resolution of a watcher
    and the completion of [load]. *)
Definition is_check (s : Signal) : bool :=
  match s with
  | emitted Event.selectorsExist
  | emitted Event.predicateResolved
  | emitted Event.networkResolved
  | load_settled Done => true
  | _ => false
  end.

(** A failing match is filtered when failing on network errors is off, when
    an ignore pattern matches its URL or when the classification does not
    ask to throw. *)
Definition unfiltered (env : Env) (c : Closure) (m : Matches) : bool :=
  truthy (env_failOnNetworkError env)
  && negb (existsb (fun p => pattern_matches p (url m)) (default [] (patterns c)))
  && env_shouldThrowError env m.

(** The error a signal settles the invocation with, if it is an unfiltered
    error signal. *)
Definition error_of (env : Env) (c : Closure) (s : Signal) : option Error :=
  match s with
  | emitted (Event.pageLoadError err)
  | emitted (Event.selectorsError err)
  | emitted (Event.predicateError err) =>
      Some {| message := "url: " +:+ message err |}
  | emitted (Event.networkError m) =>
      if unfiltered env c m then Some (networkErrorMessage m) else None
  | _ => None
  end.

(** The outcome a pending invocation takes on a signal. *)
Definition verdict (env : Env) (c : Closure) (s : Signal) : Promise :=
  match error_of env c s with
  | Some err => rejected err
  | None => if is_check s && resolved_after s c then fulfilled else pending
  end.

(** The number of times the outcome leaves [pending] along a run. *)
Fixpoint settlements (r : Running) (ss : list Signal) : nat :=
  match ss with
  | [] => 0
  | s :: rest =>
      (if is_pending (outcome r) && negb (is_pending (outcome (deliver r s)))
       then 1 else 0) + settlements (deliver r s) rest
  end.

(** The promise of [session.url(uri)] is fulfilled. *)
Definition navigation_completed (s : Signal) : bool :=
  match s with
  | url_settled Done => true
  | _ => false
  end.

Definition is_event (e : Event.t) (s : Signal) : bool :=
  match s, e with
  | emitted Event.selectorsExist, Event.selectorsExist
  | emitted Event.predicateResolved, Event.predicateResolved
  | emitted Event.networkResolved, Event.networkResolved => true
  | _, _ => false
  end.

(** The value of a readiness flag of a running invocation; the blank-page
    branch has none to wait for. *)
Definition flag (f : Closure -> bool) (r : Running) : bool :=
  match r with
  | Navigating _ => true
  | Loading _ c => f c
  end.

End Policy.

(** ** A small engine for examples

    Expressions whose source is a literal text, with or without the global
    flag; a global expression searches from [lastIndex] and moves it. *)
Record LiteralRegExp := {
  source : string;
  global : bool;
  lastIndex : nat
}.

Definition literal_exec (r : LiteralRegExp) (str : string)
  : option (list string) * LiteralRegExp :=
  match String.index (if global r then lastIndex r else 0) (source r) str with
  | Some i =>
      (Some [source r],
       if global r
       then {| source := source r; global := true;
               lastIndex := i + String.length (source r) |}
       else r)
  | None =>
      (None, {| source := source r; global := global r; lastIndex := 0 |})
  end.

Definition literal_engine : RegExpEngine :=
  {| RegExp := LiteralRegExp; exec := literal_exec |}.

(** Sample sessions, options and matches. The predicate of the samples is
    kept as its source text. *)
Definition session_defaults : OpenAndWaitOpts (RE := literal_engine) :=
  {| cfg_timeout := None;
     cfg_waitNetworkIdle := true;
     cfg_waitNetworkIdleTimeout := 500;
     cfg_failOnNetworkError := true;
     cfg_ignoreNetworkErrorsPatterns := [] |}.

Definition chrome_config : Config (RE := literal_engine) :=
  {| browserName := "chrome";
     automationProtocol := "webdriver";
     pageLoadTimeout := 20000;
     openAndWaitOpts := Some session_defaults |}.

Definition firefox_config : Config (RE := literal_engine) :=
  {| browserName := "firefox";
     automationProtocol := "webdriver";
     pageLoadTimeout := 20000;
     openAndWaitOpts := Some session_defaults |}.

Definition example_uri : string := "https://example.com".

Definition accepting (kind : string) : option (gmap string string) :=
  Some {[ "Accept" := kind ]}.

Definition favicon_match : Matches :=
  {| url := "https://example.com/favicon.ico";
     headers := accepting "image/x-icon";
     statusCode := 404 |}.

Definition image_match : Matches :=
  {| url := "https://example.com/logo.png";
     headers := accepting "image/png";
     statusCode := 404 |}.

Definition script_match : Matches :=
  {| url := "https://example.com/app.js";
     headers := accepting "*/*";
     statusCode := 500 |}.

Definition cdn_match : Matches :=
  {| url := "https://cdn.example.com/x.js";
     headers := accepting "image/png";
     statusCode := 503 |}.

Definition ignoring (ps : list (Pattern (RE := literal_engine)))
  : WaitOpts (RE := literal_engine) string :=
  {| selector := None; predicate := None; waitNetworkIdle := None;
     waitNetworkIdleTimeout := None; failOnNetworkError := None;
     shouldThrowError := None; ignoreNetworkErrorsPatterns := Some ps;
     timeout := None |}.

Definition throwing (f : Matches -> bool) : WaitOpts (RE := literal_engine) string :=
  {| selector := None; predicate := None; waitNetworkIdle := None;
     waitNetworkIdleTimeout := None; failOnNetworkError := None;
     shouldThrowError := Some f; ignoreNetworkErrorsPatterns := None;
     timeout := None |}.

Definition cdn_regexp : Pattern (RE := literal_engine) :=
  PRegExp (RE := literal_engine) {| source := "cdn"; global := true; lastIndex := 0 |}.

Definition strict (ps : list (Pattern (RE := literal_engine)))
  : WaitOpts (RE := literal_engine) string :=
  {| selector := None; predicate := None; waitNetworkIdle := None;
     waitNetworkIdleTimeout := None; failOnNetworkError := Some true;
     shouldThrowError := Some (fun _ => true);
     ignoreNetworkErrorsPatterns := Some ps;
     timeout := None |}.

Definition tolerant : WaitOpts (RE := literal_engine) string :=
  {| selector := None; predicate := None; waitNetworkIdle := None;
     waitNetworkIdleTimeout := None; failOnNetworkError := Some false;
     shouldThrowError := None; ignoreNetworkErrorsPatterns := None;
     timeout := None |}.

Definition waiting_for_all : WaitOpts (RE := literal_engine) string :=
  {| selector := Some (Selectors ["#a"; "#b"]);
     predicate := Some "() => window.ready";
     waitNetworkIdle := Some true;
     waitNetworkIdleTimeout := None; failOnNetworkError := None;
     shouldThrowError := None; ignoreNetworkErrorsPatterns := None;
     timeout := None |}.

(** ** Causes of a rejection and the names of browser events *)

(** The error events of a page loader. *)
Definition is_error_event (s : Signal) : bool :=
  match s with
  | emitted (Event.pageLoadError _)
  | emitted (Event.selectorsError _)
  | emitted (Event.predicateError _)
  | emitted (Event.networkError _) => true
  | _ => false
  end.

(** A signal is the cause of a rejection with [err]: an error event whose
    message [err] carries after the prefix, or a failing match that the
    classification asked to throw for while failing on network errors was
    on, with the message built from its URL and status code. *)
Definition caused (env : Env) (s : Signal) (err : Error) : Prop :=
  match s with
  | emitted (Event.pageLoadError e)
  | emitted (Event.selectorsError e)
  | emitted (Event.predicateError e) =>
      err = {| message := "url: " +:+ message e |}
  | emitted (Event.networkError m) =>
      truthy (env_failOnNetworkError env) = true
      /\ env_shouldThrowError env m = true
      /\ err = {| message := "url: couldn't get content from " +:+ url m
                             +:+ ": " +:+ pretty (statusCode m) |}
  | _ => False
  end.

(** The enum [BrowserEventNames] of [src/runner/browser-env/vite/types.ts].
    [BROWSER_EVENT_PREFIX] comes from [./constants], which is not among the
    sources; it is a parameter of the values. *)
Module BrowserEventNames.
Inductive t :=
| initialize
| runBrowserCommand
| runExpectMatcher
| callConsoleMethod.

Definition value (BROWSER_EVENT_PREFIX : string) (name : t) : string :=
  match name with
  | initialize => BROWSER_EVENT_PREFIX +:+ ":initialize"
  | runBrowserCommand => BROWSER_EVENT_PREFIX +:+ ":runBrowserCommand"
  | runExpectMatcher => BROWSER_EVENT_PREFIX +:+ ":runExpectMatcher"
  | callConsoleMethod => BROWSER_EVENT_PREFIX +:+ ":callConsoleMethod"
  end.

Definition members : list t :=
  [initialize; runBrowserCommand; runExpectMatcher; callConsoleMethod].
End BrowserEventNames.

(** Further samples. *)
Definition lowercase_accept_match : Matches :=
  {| url := "https://example.com/logo.png";
     headers := Some {[ "accept" := "image/png" ]};
     statusCode := 404 |}.

Definition font_match : Matches :=
  {| url := "https://example.com/fonts/a.woff2";
     headers := None;
     statusCode := 404 |}.

Definition throwing_but_tolerant : WaitOpts (RE := literal_engine) string :=
  {| selector := None; predicate := None; waitNetworkIdle := None;
     waitNetworkIdleTimeout := None; failOnNetworkError := Some false;
     shouldThrowError := Some (fun _ => true); ignoreNetworkErrorsPatterns := None;
     timeout := None |}.

Definition with_timeout (t : Z) : WaitOpts (RE := literal_engine) string :=
  {| selector := Some (OneSelector ""); predicate := None; waitNetworkIdle := Some false;
     waitNetworkIdleTimeout := None; failOnNetworkError := None;
     shouldThrowError := None; ignoreNetworkErrorsPatterns := None;
     timeout := Some t |}.

(** ** Strings *)

Lemma append_cons (c : Ascii.ascii) (a b : string) :
  String c a +:+ b = String c (a +:+ b).
Proof. reflexivity. Qed.

Lemma prefix_append (p s : string) :
  String.prefix p s = true <-> exists r, s = p +:+ r.
Proof.
  revert s. induction p as [|a p IH]; intros s.
  - split; [intros _; by exists s | intros _; by destruct s].
  - destruct s as [|b s].
    + split; [done | intros [r Hr]; discriminate].
    + simpl. destruct (Ascii.ascii_dec a b) as [->|Hab].
      * rewrite IH. split; intros [r Hr]; exists r;
          rewrite append_cons in *; congruence.
      * split; [done | intros [r Hr]; rewrite append_cons in Hr; congruence].
Qed.

Lemma includes_spec (str pat : string) :
  includes str pat = true <-> exists a b, str = a +:+ pat +:+ b.
Proof.
  induction str as [|c str IH]; cbn [includes].
  - rewrite orb_false_r, prefix_append. split.
    + intros [r Hr]. by exists "", r.
    + intros (a & b & Hab). destruct a; [by exists b | discriminate].
  - rewrite orb_true_iff, prefix_append, IH. split.
    + intros [[r Hr] | (a & b & Hab)].
      * by exists "", r.
      * exists (String c a), b. rewrite append_cons. by rewrite Hab.
    + intros (a & b & Hab). destruct a as [|c' a].
      * left. by exists b.
      * right. exists a, b. rewrite append_cons in Hab. congruence.
Qed.

Lemma endsWith_spec (str suffix : string) :
  endsWith str suffix = true <-> exists p, str = p +:+ suffix.
Proof.
  induction str as [|c str IH]; cbn [endsWith].
  - rewrite orb_false_r, String.eqb_eq. split.
    + intros <-. by exists "".
    + intros [p Hp]. destruct p; [done | discriminate].
  - rewrite orb_true_iff, String.eqb_eq, IH. split.
    + intros [<- | [p Hp]]; [by exists "" | exists (String c p); rewrite append_cons; by rewrite Hp].
    + intros [p Hp]. destruct p as [|c' p].
      * by left.
      * right. exists p. rewrite append_cons in Hp. congruence.
Qed.

(** ** The handlers and the runs of an invocation *)

Section Properties.
Context `{RE : RegExpEngine}.
Context {Predicate : Type}.

Implicit Types (c : Closure) (env : Env) (r : Running) (s : Signal)
  (ss : list Signal) (m : Matches) (ps : list Pattern).

(** *** Ignore patterns *)

Lemma test_pattern_fst (str : string) (p : Pattern) :
  fst (test_pattern str p) = pattern_matches p str.
Proof. destruct p as [q|q]; simpl; [done|]. by destruct (exec q str). Qed.

Lemma some_pattern_fst ps (str : string) :
  fst (some_pattern ps str) = existsb (fun p => pattern_matches p str) ps.
Proof.
  induction ps as [|p ps IH]; simpl; [done|].
  rewrite <- test_pattern_fst, <- IH.
  destruct (test_pattern str p) as [[] p']; simpl; [done|].
  by destruct (some_pattern ps str).
Qed.

Lemma isMatchPatterns_fst (o : option (list Pattern)) (str : string) :
  fst (isMatchPatterns o str)
  = existsb (fun p => pattern_matches p str) (default [] o).
Proof.
  destruct o as [ps|]; simpl; [|done].
  rewrite <- some_pattern_fst. by destruct (some_pattern ps str).
Qed.

(** A string pattern stays in the array whatever [exec] does to the
    regular expressions around it. *)
Lemma some_pattern_keeps_strings ps (str q : string) :
  PString q ∈ ps -> PString q ∈ snd (some_pattern ps str).
Proof.
  induction ps as [|p ps IH]; simpl; [done|].
  intros Hin.
  assert (Hp : p = PString q -> snd (test_pattern str p) = PString q)
    by (by intros ->).
  destruct (test_pattern str p) as [hit p'] eqn:Ht; simpl in Hp.
  apply elem_of_cons in Hin.
  destruct hit; simpl.
  - destruct Hin as [<-|Hin]; [rewrite Hp by done; left | by right].
  - destruct (some_pattern ps str) as [found rest'] eqn:Hs; simpl in *.
    destruct Hin as [<-|Hin]; [rewrite Hp by done; left | right; auto].
Qed.

Lemma isMatchPatterns_keeps_strings (o : option (list Pattern)) (str q : string) :
  PString q ∈ default [] o -> PString q ∈ default [] (snd (isMatchPatterns o str)).
Proof.
  destruct o as [ps|]; simpl; [|done].
  intros Hin. pose proof (some_pattern_keeps_strings ps str q Hin) as H.
  by destruct (some_pattern ps str).
Qed.

(** *** One signal *)

Lemma checkLoaded_promise c :
  promise (checkLoaded c) = if all_resolved c then resolve (promise c) else promise c.
Proof. unfold checkLoaded, all_resolved. by destruct (_ && _). Qed.

Lemma checkLoaded_flags c :
  selectorsResolved (checkLoaded c) = selectorsResolved c
  /\ predicateResolved (checkLoaded c) = predicateResolved c
  /\ networkResolved (checkLoaded c) = networkResolved c
  /\ patterns (checkLoaded c) = patterns c.
Proof. unfold checkLoaded. by destruct (_ && _). Qed.

Lemma onNetworkError_promise env m c :
  promise (onNetworkError env m c)
  = if unfiltered env c m then reject (networkErrorMessage m) (promise c)
    else promise c.
Proof.
  unfold onNetworkError, unfiltered.
  destruct (truthy (env_failOnNetworkError env)); simpl; [|done].
  rewrite <- isMatchPatterns_fst.
  destruct (isMatchPatterns (patterns c) (url m)) as [[] ps']; simpl; [done|].
  by destruct (env_shouldThrowError env m).
Qed.

Lemma onNetworkError_flags env m c :
  selectorsResolved (onNetworkError env m c) = selectorsResolved c
  /\ predicateResolved (onNetworkError env m c) = predicateResolved c
  /\ networkResolved (onNetworkError env m c) = networkResolved c.
Proof.
  unfold onNetworkError.
  destruct (negb (truthy (env_failOnNetworkError env))); [done|].
  destruct (isMatchPatterns (patterns c) (url m)) as [ig ps'].
  by destruct (negb ig && env_shouldThrowError env m).
Qed.

Lemma onNetworkError_patterns env m c :
  patterns (onNetworkError env m c) = patterns c
  \/ patterns (onNetworkError env m c) = snd (isMatchPatterns (patterns c) (url m)).
Proof.
  unfold onNetworkError.
  destruct (negb (truthy (env_failOnNetworkError env))); [by left|].
  destruct (isMatchPatterns (patterns c) (url m)) as [ig ps'].
  right. by destruct (negb ig && env_shouldThrowError env m).
Qed.

(** A settled promise is out of reach of every handler. *)
Lemma react_settled env c s :
  is_pending (promise c) = false -> promise (react env c s) = promise c.
Proof.
  intros Hs.
  assert (Hr : forall f, f = resolve \/ (exists err, f = reject err) ->
                         f (promise c) = promise c).
  { intros f [->|[err ->]]; by destruct (promise c). }
  destruct s as [o|e|[|err]]; simpl; try done.
  - destruct e; simpl; unfold handleError;
      rewrite ?checkLoaded_promise, ?onNetworkError_promise; simpl;
      repeat match goal with |- context [if ?b then _ else _] => destruct b end;
      eauto.
  - rewrite checkLoaded_promise. destruct (all_resolved c); eauto.
Qed.

(** A pending promise takes the outcome the completion policy gives. *)
Lemma react_verdict env c s :
  promise c = pending -> promise (react env c s) = verdict env c s.
Proof.
  intros Hp. unfold verdict.
  destruct s as [o|e|[|err]]; simpl; rewrite ?Hp; try done.
  - destruct e; simpl; unfold handleError;
      rewrite ?checkLoaded_promise, ?onNetworkError_promise; simpl;
      rewrite ?Hp; try done; unfold all_resolved; simpl.
    + by destruct (unfiltered env c m).
    + by destruct (selectorsResolved c), (networkResolved c).
    + by destruct (selectorsResolved c), (predicateResolved c).
  - rewrite checkLoaded_promise, Hp. by destruct (all_resolved c).
Qed.

Lemma react_flags env c s :
  selectorsResolved (react env c s)
    = selectorsResolved c || is_event Event.selectorsExist s
  /\ predicateResolved (react env c s)
    = predicateResolved c || is_event Event.predicateResolved s
  /\ networkResolved (react env c s)
    = networkResolved c || is_event Event.networkResolved s.
Proof.
  destruct s as [o|e|[|err]]; simpl; rewrite ?orb_false_r; try done.
  - destruct e; simpl; unfold handleError; rewrite ?orb_false_r, ?orb_true_r;
      try done.
    + apply onNetworkError_flags.
    + destruct (checkLoaded_flags (set_selectorsResolved c)) as (-> & -> & -> & _).
      done.
    + destruct (checkLoaded_flags (set_predicateResolved c)) as (-> & -> & -> & _).
      done.
    + destruct (checkLoaded_flags (set_networkResolved c)) as (-> & -> & -> & _).
      done.
  - destruct (checkLoaded_flags c) as (-> & -> & -> & _). done.
Qed.

Lemma react_keeps_strings env c s (q : string) :
  PString q ∈ default [] (patterns c) ->
  PString q ∈ default [] (patterns (react env c s)).
Proof.
  intros Hin.
  destruct s as [o|e|[|err]]; simpl; try done.
  - destruct e; simpl; unfold handleError; try done.
    + destruct (onNetworkError_patterns env m c) as [-> | ->]; [done|].
      by apply isMatchPatterns_keeps_strings.
    + by destruct (checkLoaded_flags (set_selectorsResolved c)) as (_ & _ & _ & ->).
    + by destruct (checkLoaded_flags (set_predicateResolved c)) as (_ & _ & _ & ->).
    + by destruct (checkLoaded_flags (set_networkResolved c)) as (_ & _ & _ & ->).
  - by destruct (checkLoaded_flags c) as (_ & _ & _ & ->).
Qed.

(** *** Runs *)

Lemma deliver_all_app r ss ss' :
  deliver_all r (ss ++ ss') = deliver_all (deliver_all r ss) ss'.
Proof. unfold deliver_all. by rewrite foldl_app. Qed.

Lemma deliver_all_Loading env c ss :
  deliver_all (Loading env c) ss = Loading env (foldl (react env) c ss).
Proof. revert c. induction ss as [|s ss IH]; intros c; [done|]. apply IH. Qed.

Lemma deliver_all_Navigating (p : Promise) ss :
  deliver_all (Navigating p) ss
  = Navigating (if existsb navigation_completed ss then resolve p else p).
Proof.
  revert p. induction ss as [|s ss IH]; intros p; [done|].
  change (deliver_all (Navigating p) (s :: ss))
    with (deliver_all (deliver (Navigating p) s) ss).
  assert (Hs : (navigation_completed s = true
                /\ deliver (Navigating p) s = Navigating (resolve p))
               \/ (navigation_completed s = false
                   /\ deliver (Navigating p) s = Navigating p)).
  { destruct s as [[|err]|e|o]; simpl; auto. }
  destruct Hs as [[Hs ->] | [Hs ->]]; rewrite IH; simpl; rewrite Hs; simpl.
  - f_equal. destruct (existsb navigation_completed ss); by destruct p.
  - done.
Qed.

(** The handlers of an invocation never change; a blank-page invocation
    never has a page loader. *)
Lemma openAndWait_running config (uri : string) (opts : WaitOpts Predicate) ss :
  (exists p, deliver_all (running (openAndWait config uri opts)) ss = Navigating p)
  \/ (exists c, deliver_all (running (openAndWait config uri opts)) ss
                = Loading (env_of config opts) c).
Proof.
  unfold openAndWait.
  destruct (String.eqb uri "" || String.eqb uri emptyPageUrl); simpl.
  - left. rewrite deliver_all_Navigating. eauto.
  - right. rewrite deliver_all_Loading. eauto.
Qed.

Lemma blank_iff (uri : string) :
  String.eqb uri "" || String.eqb uri emptyPageUrl = true
  <-> uri = "" \/ uri = emptyPageUrl.
Proof. by rewrite orb_true_iff, !String.eqb_eq. Qed.

Lemma deliver_settled r s :
  is_pending (outcome r) = false -> outcome (deliver r s) = outcome r.
Proof.
  destruct r as [p|env c]; simpl.
  - intros Hp. destruct s as [[|err]|e|o]; simpl; try done. by destruct p.
  - apply react_settled.
Qed.

Lemma deliver_all_settled r ss :
  is_pending (outcome r) = false -> outcome (deliver_all r ss) = outcome r.
Proof.
  revert r. induction ss as [|s ss IH]; intros r Hr; [done|].
  change (deliver_all r (s :: ss)) with (deliver_all (deliver r s) ss).
  rewrite IH; rewrite deliver_settled; done.
Qed.

Lemma settlements_settled r ss :
  is_pending (outcome r) = false -> settlements r ss = 0.
Proof.
  revert r. induction ss as [|s ss IH]; intros r Hr; [done|].
  simpl. rewrite Hr. simpl. apply IH. by rewrite deliver_settled.
Qed.

Lemma settlements_pending r ss :
  is_pending (outcome r) = true ->
  settlements r ss = if is_pending (outcome (deliver_all r ss)) then 0 else 1.
Proof.
  revert r. induction ss as [|s ss IH]; intros r Hr; simpl.
  - by rewrite Hr.
  - rewrite Hr. simpl.
    change (foldl deliver (deliver r s) ss) with (deliver_all (deliver r s) ss).
    destruct (is_pending (outcome (deliver r s))) eqn:Hs; simpl.
    + by apply IH.
    + rewrite settlements_settled, deliver_all_settled, Hs by done. done.
Qed.

Lemma run_flags env c ss :
  selectorsResolved (foldl (react env) c ss)
    = selectorsResolved c || existsb (is_event Event.selectorsExist) ss
  /\ predicateResolved (foldl (react env) c ss)
    = predicateResolved c || existsb (is_event Event.predicateResolved) ss
  /\ networkResolved (foldl (react env) c ss)
    = networkResolved c || existsb (is_event Event.networkResolved) ss.
Proof.
  revert c. induction ss as [|s ss IH]; intros c; simpl.
  - by rewrite !orb_false_r.
  - destruct (IH (react env c s)) as (-> & -> & ->).
    destruct (react_flags env c s) as (-> & -> & ->).
    by rewrite !orb_assoc.
Qed.

Lemma run_keeps_strings env c ss (q : string) :
  PString q ∈ default [] (patterns c) ->
  PString q ∈ default [] (patterns (foldl (react env) c ss)).
Proof.
  revert c. induction ss as [|s ss IH]; intros c Hin; simpl; [done|].
  by apply IH, react_keeps_strings.
Qed.

(** *** The command *)

(** C1. The effective [waitNetworkIdle] flag is the conjunction of what the
    caller intends (the caller's option, else the session's) and the
    capability of the session, which holds exactly when the browser name
    is "chrome" or the automation protocol is "devtools". Without the
    capability the flag is off, also in the options of the page loader,
    and [networkResolved] is true from the start and after every run of
    signals: readiness never waits for the network. *)
Theorem effective_waitNetworkIdle_is_intent_and_capability
    config (uri : string) (opts : WaitOpts Predicate) :
  let capability := isChrome config || isCDP config in
  let intended := intended_waitNetworkIdle config opts in
  let effective := effective_waitNetworkIdle config opts in
  (capability = true
     <-> browserName config = "chrome" \/ automationProtocol config = "devtools")
  /\ truthy effective = truthy intended && capability
  /\ (forall b : bool, intended = Some b -> effective = Some (b && capability))
  /\ (capability = false ->
      truthy effective = false
      /\ (forall o, new_PageLoader o ∈ calls (openAndWait config uri opts) ->
                    truthy (pl_waitNetworkIdle o) = false)
      /\ (forall ss,
            flag networkResolved
                 (deliver_all (running (openAndWait config uri opts)) ss) = true)).
Proof.
  intros capability intended effective.
  assert (Heff : truthy effective = truthy intended && capability).
  { unfold effective, effective_waitNetworkIdle, and_assign. fold intended capability.
    destruct intended as [[]|]; done. }
  split; [|split; [done|split]].
  - unfold capability, isChrome, isCDP. by rewrite orb_true_iff, !String.eqb_eq.
  - intros b Hb. unfold effective, effective_waitNetworkIdle, and_assign.
    fold intended capability. rewrite Hb. by destruct b.
  - intros Hcap. rewrite Hcap, andb_false_r in Heff.
    split; [done|split].
    + intros o. unfold openAndWait.
      destruct (String.eqb uri "" || String.eqb uri emptyPageUrl); simpl.
      * intros Hin. apply list_elem_of_singleton in Hin. discriminate.
      * intros Hin. apply elem_of_cons in Hin. destruct Hin as [[= ->]|Hin]; [done|].
        simpl in Hin. repeat (apply elem_of_cons in Hin as [Hin|Hin]; [discriminate|]).
        by apply elem_of_nil in Hin.
    + intros ss. unfold openAndWait.
      destruct (String.eqb uri "" || String.eqb uri emptyPageUrl); simpl.
      * by rewrite deliver_all_Navigating.
      * rewrite deliver_all_Loading. simpl.
        match goal with
        | |- networkResolved (foldl (react ?e) ?c ss) = true =>
            destruct (run_flags e c ss) as (_ & _ & ->)
        end.
        unfold effective in Heff.
        simpl. by rewrite Heff.
Qed.

(** C2. For the empty URI and for "about:blank" the command only calls
    [session.url(uri)]: no page loader is constructed, no handler is
    registered and [load] is not called, so no watcher runs. Its promise is
    fulfilled exactly by the completion of the navigation, whatever other
    signals arrive. *)
Theorem blank_uri_bypasses_page_loader
    config (uri : string) (opts : WaitOpts Predicate) :
  uri = "" \/ uri = emptyPageUrl ->
  calls (openAndWait config uri opts) = [session_url uri]
  /\ running (openAndWait config uri opts) = Navigating pending
  /\ (forall ss,
        outcome (deliver_all (running (openAndWait config uri opts))
                             (ss ++ [url_settled Done])) = fulfilled)
  /\ (forall ss,
        outcome (deliver_all (running (openAndWait config uri opts)) ss)
        = if existsb navigation_completed ss then fulfilled else pending).
Proof.
  intros Hblank. apply blank_iff in Hblank.
  unfold openAndWait. rewrite Hblank. simpl.
  split; [done|split; [done|split]]; intros ss;
    rewrite deliver_all_Navigating; simpl; [|done].
  rewrite existsb_app. simpl. by rewrite orb_true_r.
Qed.

(** Around a page loader a failing navigation arrives as ["pageLoadError"]
    and rejects the pending command with the prefixed message. *)
Lemma pageLoadError_rejects env c (err : Error) :
  promise c = pending ->
  promise (handle env (Event.pageLoadError err) c)
  = rejected {| message := "url: " +:+ message err |}.
Proof. intros Hp. simpl. by rewrite Hp. Qed.

(** C3, on the blank-page branch. A failing navigation to the empty URI or
    to "about:blank" leaves the promise of the command pending: the
    promise of [session.url(uri)] has a fulfilment handler only, so the
    command is never rejected, whatever follows. The branch around a page
    loader does report the failure. *)
Theorem blank_uri_navigation_failure_is_not_reported
    config (opts : WaitOpts Predicate) (err : Error) ss :
  let failing (uri : string) :=
    deliver (running (openAndWait config uri opts)) (url_settled (Failed err)) in
  outcome (failing "") = pending
  /\ outcome (failing emptyPageUrl) = pending
  /\ (outcome (deliver_all (failing "") ss) = pending
      \/ outcome (deliver_all (failing "") ss) = fulfilled)
  /\ (outcome (deliver_all (failing emptyPageUrl) ss) = pending
      \/ outcome (deliver_all (failing emptyPageUrl) ss) = fulfilled).
Proof.
  simpl. unfold openAndWait. simpl.
  rewrite !deliver_all_Navigating. simpl.
  destruct (existsb navigation_completed ss); auto.
Qed.

(** C4. Under the default classification (no [shouldThrowError] from the
    caller) a failing match whose URL ends in "/favicon.ico" leaves the
    outcome of the command as it is, at every point of every invocation
    and whatever its status code and headers are. *)
Theorem favicon_match_never_rejects
    config (uri : string) (opts : WaitOpts Predicate) ss m :
  shouldThrowError opts = None ->
  (exists p, url m = p +:+ "/favicon.ico") ->
  outcome (deliver (deliver_all (running (openAndWait config uri opts)) ss)
                   (emitted (Event.networkError m)))
  = outcome (deliver_all (running (openAndWait config uri opts)) ss).
Proof.
  intros Hdefault Hfav. apply endsWith_spec in Hfav.
  destruct (openAndWait_running config uri opts ss) as [[p ->]|[c ->]]; [done|].
  simpl. rewrite onNetworkError_promise.
  unfold unfiltered, env_of. simpl. rewrite Hdefault. simpl.
  unfold shouldThrowErrorDefault, is_.favicon. rewrite Hfav.
  by rewrite andb_false_r.
Qed.

(** C5, as the code has it. With [failOnNetworkError] on and the default
    classification, a failing match that no ignore pattern matches and that
    is not the favicon rejects the pending command, with the message
    "url: couldn't get content from <url>: <statusCode>", exactly when it
    is an image or a stylesheet (by its Accept header) or a font (by its
    extension); any other such match leaves the command pending. *)
Theorem default_classification_fatal_iff_asset
    config (uri : string) (opts : WaitOpts Predicate) ss m :
  uri <> "" -> uri <> emptyPageUrl ->
  truthy (env_failOnNetworkError (env_of config opts)) = true ->
  shouldThrowError opts = None ->
  outcome (deliver_all (running (openAndWait config uri opts)) ss) = pending ->
  existsb (fun p => pattern_matches p (url m))
          (current_patterns (deliver_all (running (openAndWait config uri opts)) ss))
    = false ->
  is_.favicon m = false ->
  outcome (deliver (deliver_all (running (openAndWait config uri opts)) ss)
                   (emitted (Event.networkError m)))
  = if truthy (is_.image m) || truthy (is_.stylesheet m) || is_.font m
    then rejected {| message := "url: couldn't get content from " +:+ url m
                                +:+ ": " +:+ pretty (statusCode m) |}
    else pending.
Proof.
  intros Hne1 Hne2 Hfail Hdefault.
  unfold openAndWait.
  destruct (String.eqb uri "" || String.eqb uri emptyPageUrl) eqn:Hblank.
  { apply blank_iff in Hblank. tauto. }
  simpl. rewrite deliver_all_Loading. simpl.
  intros Hpending Hignore Hfav.
  rewrite onNetworkError_promise, Hpending.
  unfold unfiltered. rewrite Hfail, Hignore. simpl.
  rewrite Hdefault. simpl. unfold shouldThrowErrorDefault. rewrite Hfav.
  by destruct (_ || _).
Qed.

(** What holds of the ignore patterns (the part of C6 the code keeps). A
    failing match whose URL matches one of the ignore patterns as they are
    when it arrives, a string by containment or a regular expression by the
    success of its execution in its present state, leaves the outcome of the
    command as it is. A string among the patterns the command starts with
    ignores the URLs that contain it for the whole invocation. *)
Theorem ignored_match_never_rejects
    config (uri : string) (opts : WaitOpts Predicate) ss m :
  (forall p,
      p ∈ current_patterns (deliver_all (running (openAndWait config uri opts)) ss) ->
      pattern_matches p (url m) = true ->
      outcome (deliver (deliver_all (running (openAndWait config uri opts)) ss)
                       (emitted (Event.networkError m)))
      = outcome (deliver_all (running (openAndWait config uri opts)) ss))
  /\ (forall (q : string) ps,
        or_default (ignoreNetworkErrorsPatterns opts)
                   (cfg_ignoreNetworkErrorsPatterns <$> openAndWaitOpts config)
          = Some ps ->
        PString q ∈ ps ->
        includes (url m) q = true ->
        outcome (deliver (deliver_all (running (openAndWait config uri opts)) ss)
                         (emitted (Event.networkError m)))
        = outcome (deliver_all (running (openAndWait config uri opts)) ss)).
Proof.
  assert (Hgen : forall r p,
             p ∈ current_patterns r -> pattern_matches p (url m) = true ->
             outcome (deliver r (emitted (Event.networkError m))) = outcome r).
  { intros [p0|env c] p Hin Hm; [done|]. simpl in *.
    rewrite onNetworkError_promise.
    assert (Hex : existsb (fun p => pattern_matches p (url m))
                          (default [] (patterns c)) = true).
    { apply existsb_exists. exists p. split; [by apply list_elem_of_In|done]. }
    unfold unfiltered. rewrite Hex. by rewrite andb_false_r. }
  split; [intros p; apply Hgen|].
  intros q ps Hps Hin Hinc.
  unfold openAndWait.
  destruct (String.eqb uri "" || String.eqb uri emptyPageUrl); simpl.
  - by rewrite deliver_all_Navigating.
  - rewrite deliver_all_Loading.
    apply (Hgen _ (PString q)); [|done].
    simpl. apply run_keeps_strings. simpl. by rewrite Hps.
Qed.

(** C7. With [failOnNetworkError] off (false or undefined after its
    default) the handler of network errors returns at once: a failing match
    changes nothing in the invocation, whatever the patterns and the
    classification are. *)
Theorem failOnNetworkError_off_ignores_every_match
    config (uri : string) (opts : WaitOpts Predicate) ss m :
  truthy (env_failOnNetworkError (env_of config opts)) = false ->
  deliver (deliver_all (running (openAndWait config uri opts)) ss)
          (emitted (Event.networkError m))
  = deliver_all (running (openAndWait config uri opts)) ss.
Proof.
  intros Hoff.
  destruct (openAndWait_running config uri opts ss) as [[p ->]|[c ->]]; [done|].
  simpl. unfold onNetworkError. by rewrite Hoff.
Qed.

(** C8. A command for a page other than the blank one starts pending with
    [selectorsResolved] true iff the normalised selectors are empty,
    [predicateResolved] true iff there is no predicate and
    [networkResolved] true iff the effective [waitNetworkIdle] is falsy;
    afterwards a flag is true iff it started true or the event of its
    watcher has arrived. *)
Theorem readiness_flags_initialised
    config (uri : string) (opts : WaitOpts Predicate) :
  uri <> "" -> uri <> emptyPageUrl ->
  exists c0,
    running (openAndWait config uri opts) = Loading (env_of config opts) c0
    /\ promise c0 = pending
    /\ (selectorsResolved c0 = true <-> selectors_of (selector opts) = [])
    /\ (predicateResolved c0 = true <-> predicate opts = None)
    /\ (networkResolved c0 = true
        <-> truthy (effective_waitNetworkIdle config opts) = false)
    /\ (forall ss,
          let r := deliver_all (running (openAndWait config uri opts)) ss in
          flag selectorsResolved r
            = selectorsResolved c0 || existsb (is_event Event.selectorsExist) ss
          /\ flag predicateResolved r
            = predicateResolved c0 || existsb (is_event Event.predicateResolved) ss
          /\ flag networkResolved r
            = networkResolved c0 || existsb (is_event Event.networkResolved) ss).
Proof.
  intros Hne1 Hne2. unfold openAndWait.
  destruct (String.eqb uri "" || String.eqb uri emptyPageUrl) eqn:Hblank.
  { apply blank_iff in Hblank. tauto. }
  eexists. split; [reflexivity|]. simpl.
  split; [done|]. split; [|split; [|split]].
  - rewrite Nat.eqb_eq. apply length_zero_iff_nil.
  - by destruct (predicate opts).
  - by destruct (truthy (effective_waitNetworkIdle config opts)).
  - intros ss. rewrite deliver_all_Loading. simpl. apply run_flags.
Qed.

(** C9. The outcome of an invocation settles at most once, and once exactly
    when it is settled at the end of the run. While it is pending, a
    signal settles it as the completion policy says: rejected by an
    unfiltered error, else fulfilled by a resolution of a watcher or the
    completion of [load] that finds the three flags true, else still
    pending. Once it is settled, no signal and no run of signals changes
    it. *)
Theorem outcome_settles_once
    config (uri : string) (opts : WaitOpts Predicate) ss :
  let r0 := running (openAndWait config uri opts) in
  outcome r0 = pending
  /\ settlements r0 ss = (if is_pending (outcome (deliver_all r0 ss)) then 0 else 1)
  /\ (forall env c s,
        deliver_all r0 ss = Loading env c ->
        promise c = pending ->
        outcome (deliver (deliver_all r0 ss) s) = verdict env c s)
  /\ (forall s,
        is_pending (outcome (deliver_all r0 ss)) = false ->
        outcome (deliver (deliver_all r0 ss) s) = outcome (deliver_all r0 ss))
  /\ (forall ss',
        is_pending (outcome (deliver_all r0 ss)) = false ->
        outcome (deliver_all r0 (ss ++ ss')) = outcome (deliver_all r0 ss)).
Proof.
  intros r0.
  assert (H0 : outcome r0 = pending).
  { unfold r0, openAndWait. by destruct (_ || _). }
  split; [done|]. split; [|split; [|split]].
  - apply settlements_pending. by rewrite H0.
  - intros env c s -> Hp. simpl. by apply react_verdict.
  - intros s. apply deliver_settled.
  - intros ss' Hs. rewrite deliver_all_app. by apply deliver_all_settled.
Qed.

(** C10, as the code has it. A [shouldThrowError] of the caller replaces the
    default classification, favicon exclusion included: in a command for a
    page other than the blank one, while [failOnNetworkError] is on and the
    command is still pending, a failing match that no ignore pattern matches
    when it arrives rejects the command, with the message built from its URL
    and status code, iff the caller's function returns true for it. *)
Theorem override_replaces_default_classification
    config (uri : string) (opts : WaitOpts Predicate) (f : Matches -> bool) ss m :
  uri <> "" -> uri <> emptyPageUrl ->
  shouldThrowError opts = Some f ->
  truthy (env_failOnNetworkError (env_of config opts)) = true ->
  outcome (deliver_all (running (openAndWait config uri opts)) ss) = pending ->
  existsb (fun p => pattern_matches p (url m))
          (current_patterns (deliver_all (running (openAndWait config uri opts)) ss))
    = false ->
  outcome (deliver (deliver_all (running (openAndWait config uri opts)) ss)
                   (emitted (Event.networkError m)))
  = if f m
    then rejected {| message := "url: couldn't get content from " +:+ url m
                                +:+ ": " +:+ pretty (statusCode m) |}
    else pending.
Proof.
  intros Hne1 Hne2 Hf Hfail.
  unfold openAndWait.
  destruct (String.eqb uri "" || String.eqb uri emptyPageUrl) eqn:Hblank.
  { apply blank_iff in Hblank. tauto. }
  simpl. rewrite deliver_all_Loading. simpl.
  intros Hpending Hignore.
  rewrite onNetworkError_promise, Hpending.
  unfold unfiltered. rewrite Hfail, Hignore. simpl.
  rewrite Hf. simpl. by destruct (f m).
Qed.

End Properties.

(** ** The theorems at sample invocations *)

Lemma effective_waitNetworkIdle_firefox :
  effective_waitNetworkIdle firefox_config waiting_for_all = Some false
  /\ flag networkResolved
       (deliver_all (running (openAndWait firefox_config example_uri waiting_for_all))
                    [emitted Event.selectorsExist]) = true.
Proof.
  destruct (effective_waitNetworkIdle_is_intent_and_capability
              firefox_config example_uri waiting_for_all)
    as (_ & _ & Hbool & Hoff).
  split.
  - apply (Hbool true). reflexivity.
  - destruct (Hoff eq_refl) as (_ & _ & Hflag). apply Hflag.
Defined.

Lemma blank_uri_bypasses_page_loader_about_blank :
  ("about:blank" = "" \/ "about:blank" = emptyPageUrl)
  /\ calls (openAndWait chrome_config "about:blank" waiting_for_all)
     = [session_url "about:blank"]
  /\ outcome (deliver_all (running (openAndWait chrome_config "about:blank" waiting_for_all))
                          ([] ++ [url_settled Done])) = fulfilled.
Proof.
  assert (Hblank : "about:blank" = "" \/ "about:blank" = emptyPageUrl)
    by (right; reflexivity).
  split; [exact Hblank|].
  destruct (blank_uri_bypasses_page_loader chrome_config "about:blank"
              waiting_for_all Hblank) as (Hcalls & _ & Hdone & _).
  split; [exact Hcalls | exact (Hdone [])].
Defined.

Lemma favicon_match_never_rejects_sample :
  shouldThrowError (ignoring []) = None
  /\ (exists p, url favicon_match = p +:+ "/favicon.ico")
  /\ outcome (deliver (deliver_all (running (openAndWait chrome_config example_uri (ignoring [])))
                                   [load_settled (Failed {| message := "late" |})])
                      (emitted (Event.networkError favicon_match)))
     = pending.
Proof.
  assert (Hfav : exists p, url favicon_match = p +:+ "/favicon.ico")
    by (exists "https://example.com"; reflexivity).
  split; [reflexivity|]. split; [exact Hfav|].
  rewrite (favicon_match_never_rejects chrome_config example_uri (ignoring [])
             [load_settled (Failed {| message := "late" |})] favicon_match
             eq_refl Hfav).
  reflexivity.
Defined.

Lemma default_classification_rejects_image :
  outcome (deliver (deliver_all (running (openAndWait chrome_config example_uri (ignoring [])))
                                [])
                   (emitted (Event.networkError image_match)))
  = rejected {| message := "url: couldn't get content from https://example.com/logo.png: 404" |}.
Proof.
  rewrite (default_classification_fatal_iff_asset chrome_config example_uri
             (ignoring []) [] image_match).
  - reflexivity.
  - discriminate.
  - discriminate.
  - reflexivity.
  - reflexivity.
  - reflexivity.
  - reflexivity.
  - reflexivity.
Defined.

(** C5, as stated, fails: with [failOnNetworkError] on, the default
    classification and no ignore pattern, the failing request of a script,
    which is neither the favicon nor an image, a stylesheet or a font, does
    not reject the command. *)
Lemma script_failure_is_not_fatal :
  let r := running (openAndWait chrome_config example_uri (ignoring [])) in
  truthy (env_failOnNetworkError (env_of chrome_config (ignoring []))) = true
  /\ shouldThrowError (ignoring []) = None
  /\ existsb (fun p => pattern_matches p (url script_match)) (current_patterns r) = false
  /\ is_.favicon script_match = false
  /\ outcome r = pending
  /\ outcome (deliver r (emitted (Event.networkError script_match))) = pending
  /\ outcome (deliver r (emitted (Event.networkError script_match)))
     <> rejected {| message := "url: couldn't get content from https://example.com/app.js: 500" |}.
Proof. vm_compute. repeat split; discriminate. Qed.

Lemma ignored_match_never_rejects_cdn :
  includes (url cdn_match) "cdn.example.com" = true
  /\ outcome (deliver (deliver_all (running (openAndWait chrome_config example_uri
                                                         (strict [PString "cdn.example.com"])))
                                   [emitted Event.selectorsExist])
                      (emitted (Event.networkError cdn_match)))
     = pending
  /\ pattern_matches cdn_regexp (url cdn_match) = true
  /\ outcome (deliver (deliver_all (running (openAndWait chrome_config example_uri
                                                         (strict [cdn_regexp])))
                                   [])
                      (emitted (Event.networkError cdn_match)))
     = pending.
Proof.
  split; [reflexivity|]. split; [|split; [reflexivity|]].
  - destruct (ignored_match_never_rejects chrome_config example_uri
                (strict [PString "cdn.example.com"])
                [emitted Event.selectorsExist] cdn_match) as [_ Hstr].
    rewrite (Hstr "cdn.example.com" [PString "cdn.example.com"]).
    + reflexivity.
    + reflexivity.
    + left.
    + reflexivity.
  - destruct (ignored_match_never_rejects chrome_config example_uri
                (strict [cdn_regexp]) [] cdn_match) as [Hgen _].
    rewrite (Hgen cdn_regexp).
    + reflexivity.
    + left.
    + reflexivity.
Defined.

Lemma failOnNetworkError_off_ignores_image :
  truthy (env_failOnNetworkError (env_of chrome_config tolerant)) = false
  /\ deliver (deliver_all (running (openAndWait chrome_config example_uri tolerant)) [])
             (emitted (Event.networkError image_match))
     = running (openAndWait chrome_config example_uri tolerant).
Proof.
  split; [reflexivity|].
  exact (failOnNetworkError_off_ignores_every_match chrome_config example_uri
           tolerant [] image_match eq_refl).
Defined.

Lemma readiness_flags_of_waiting_for_all :
  example_uri <> "" /\ example_uri <> emptyPageUrl
  /\ exists c0,
      running (openAndWait chrome_config example_uri waiting_for_all)
      = Loading (env_of chrome_config waiting_for_all) c0
      /\ selectorsResolved c0 = false
      /\ predicateResolved c0 = false
      /\ networkResolved c0 = false
      /\ flag selectorsResolved
           (deliver_all (running (openAndWait chrome_config example_uri waiting_for_all))
                        [emitted Event.selectorsExist]) = true
      /\ flag predicateResolved
           (deliver_all (running (openAndWait chrome_config example_uri waiting_for_all))
                        [emitted Event.selectorsExist]) = false.
Proof.
  assert (H1 : example_uri <> "") by discriminate.
  assert (H2 : example_uri <> emptyPageUrl) by discriminate.
  split; [exact H1|]. split; [exact H2|].
  destruct (readiness_flags_initialised chrome_config example_uri waiting_for_all H1 H2)
    as (c0 & Hrun & _ & Hsel & Hpred & Hnet & Hlater).
  exists c0. split; [exact Hrun|].
  assert (Hs : selectorsResolved c0 = false).
  { destruct (selectorsResolved c0); [|reflexivity].
    destruct Hsel as [Hsel _]. discriminate (Hsel eq_refl). }
  assert (Hp : predicateResolved c0 = false).
  { destruct (predicateResolved c0); [|reflexivity].
    destruct Hpred as [Hpred _]. discriminate (Hpred eq_refl). }
  assert (Hn : networkResolved c0 = false).
  { destruct (networkResolved c0); [|reflexivity].
    destruct Hnet as [Hnet _]. discriminate (Hnet eq_refl). }
  destruct (Hlater [emitted Event.selectorsExist]) as (Hs' & Hp' & _).
  split; [exact Hs|]. split; [exact Hp|]. split; [exact Hn|]. split.
  - rewrite Hs', Hs. reflexivity.
  - rewrite Hp', Hp. reflexivity.
Defined.

Lemma outcome_settles_once_on_predicate_error :
  let r0 := running (openAndWait chrome_config example_uri (ignoring [])) in
  let ss := [emitted (Event.predicateError {| message := "boom" |})] in
  let later := [emitted Event.networkResolved; load_settled Done;
                emitted (Event.networkError image_match)] in
  settlements r0 (ss ++ later) = 1
  /\ outcome (deliver_all r0 (ss ++ later)) = rejected {| message := "url: boom" |}.
Proof.
  intros r0 ss later.
  destruct (outcome_settles_once chrome_config example_uri (ignoring []) ss)
    as (_ & _ & _ & _ & Hfinal).
  destruct (outcome_settles_once chrome_config example_uri (ignoring []) (ss ++ later))
    as (_ & Hcount & _).
  fold r0 in Hfinal, Hcount.
  rewrite (Hfinal later eq_refl) in Hcount |- *.
  split; [exact Hcount | reflexivity].
Defined.

Lemma override_rejects_favicon :
  outcome (deliver (deliver_all (running (openAndWait chrome_config example_uri
                                                     (throwing (fun _ => true))))
                                [])
                   (emitted (Event.networkError favicon_match)))
  = rejected {| message := "url: couldn't get content from https://example.com/favicon.ico: 404" |}.
Proof.
  rewrite (override_replaces_default_classification chrome_config example_uri
             (throwing (fun _ => true)) (fun _ => true) [] favicon_match).
  - reflexivity.
  - discriminate.
  - discriminate.
  - reflexivity.
  - reflexivity.
  - reflexivity.
  - reflexivity.
Defined.

(** C10, as stated, fails: the caller's [shouldThrowError] returns true for a
    failing match that no ignore pattern matches, but [failOnNetworkError]
    is off and the pending command is not rejected. *)
Lemma override_is_gated_by_failOnNetworkError :
  let r := running (openAndWait chrome_config example_uri throwing_but_tolerant) in
  (exists f, shouldThrowError throwing_but_tolerant = Some f /\ f favicon_match = true)
  /\ existsb (fun p => pattern_matches p (url favicon_match)) (current_patterns r) = false
  /\ outcome r = pending
  /\ outcome (deliver r (emitted (Event.networkError favicon_match))) = pending
  /\ outcome (deliver r (emitted (Event.networkError favicon_match)))
     <> rejected {| message := "url: couldn't get content from https://example.com/favicon.ico: 404" |}.
Proof.
  split; [by exists (fun _ => true)|]. vm_compute. repeat split. discriminate.
Qed.

(** C6, on a global regular expression. The caller ignores [/cdn/g] and the
    URL of the failing match matches it, yet the command is rejected by the
    second failing match of that URL: [exec] left [lastIndex] behind the
    first match, so the next execution starts there, fails, and the match is
    not ignored. *)
Example global_regexp_ignores_per_execution :
  let r := running (openAndWait chrome_config example_uri (strict [cdn_regexp])) in
  ignoreNetworkErrorsPatterns (strict [cdn_regexp]) = Some [cdn_regexp]
  /\ pattern_matches cdn_regexp (url cdn_match) = true
  /\ outcome (deliver_all r [emitted (Event.networkError cdn_match)]) = pending
  /\ current_patterns (deliver_all r [emitted (Event.networkError cdn_match)])
     = [PRegExp (RE := literal_engine)
          {| source := "cdn"; global := true; lastIndex := 11 |}]
  /\ outcome (deliver_all r [emitted (Event.networkError cdn_match);
                             emitted (Event.networkError cdn_match)])
     = rejected {| message := "url: couldn't get content from https://cdn.example.com/x.js: 503" |}.
Proof. vm_compute. repeat split. Qed.

(** ** Further properties of the command *)

Lemma includes_empty (str : string) : includes str "" = true.
Proof. apply includes_spec. by exists "", str. Qed.

Lemma append_inj_l (p a b : string) : p +:+ a = p +:+ b -> a = b.
Proof.
  induction p as [|c p IH]; [done|].
  rewrite !append_cons. intros [= H]. by apply IH.
Qed.

Section Coverage.
Context `{RE : RegExpEngine}.
Context {Predicate : Type}.

Implicit Types (c : Closure) (env : Env) (r : Running) (s : Signal)
  (ss : list Signal) (m : Matches) (ps : list Pattern).

(** *** The array of patterns *)

Lemma test_pattern_string (str q : string) :
  test_pattern str (PString q) = (includes str q, PString q).
Proof. done. Qed.

Lemma test_pattern_kind (str : string) (p : Pattern) (q : string) :
  p = PString q <-> snd (test_pattern str p) = PString q.
Proof.
  destruct p as [q'|r]; simpl; [done|].
  destruct (exec r str). simpl. split; discriminate.
Qed.

Lemma some_pattern_shape ps (str : string) :
  length (snd (some_pattern ps str)) = length ps
  /\ forall (i : nat) (q : string),
       ps !! i = Some (PString q) <-> snd (some_pattern ps str) !! i = Some (PString q).
Proof.
  induction ps as [|p ps [IHlen IHstr]]; simpl; [done|].
  pose proof (test_pattern_kind str p) as Hkind.
  destruct (test_pattern str p) as [hit p']; simpl in Hkind.
  assert (Hhead : forall q, Some p = Some (PString q) <-> Some p' = Some (PString q)).
  { intros q. split; intros [= H]; f_equal; by apply (Hkind q). }
  destruct hit; simpl.
  - split; [done|]. intros [|i] q; simpl; [apply Hhead | done].
  - destruct (some_pattern ps str) as [found rest]; simpl in *.
    split; [by rewrite IHlen|]. intros [|i] q; simpl; [apply Hhead | apply IHstr].
Qed.

Lemma isMatchPatterns_shape (o : option (list Pattern)) (str : string) :
  is_defined (snd (isMatchPatterns o str)) = is_defined o
  /\ length (default [] (snd (isMatchPatterns o str))) = length (default [] o)
  /\ forall (i : nat) (q : string),
       default [] o !! i = Some (PString q)
       <-> default [] (snd (isMatchPatterns o str)) !! i = Some (PString q).
Proof.
  destruct o as [ps|]; simpl; [|done].
  pose proof (some_pattern_shape ps str) as H.
  by destruct (some_pattern ps str).
Qed.

Lemma react_patterns env c s :
  patterns (react env c s) = patterns c
  \/ exists m, patterns (react env c s) = snd (isMatchPatterns (patterns c) (url m)).
Proof.
  destruct s as [o|e|[|err]]; simpl; auto.
  - destruct e; simpl; unfold handleError; auto.
    + destruct (onNetworkError_patterns env m c); eauto.
    + left. by destruct (checkLoaded_flags (set_selectorsResolved c)) as (_ & _ & _ & ->).
    + left. by destruct (checkLoaded_flags (set_predicateResolved c)) as (_ & _ & _ & ->).
    + left. by destruct (checkLoaded_flags (set_networkResolved c)) as (_ & _ & _ & ->).
  - left. by destruct (checkLoaded_flags c) as (_ & _ & _ & ->).
Qed.

Lemma run_patterns_shape env c ss :
  is_defined (patterns (foldl (react env) c ss)) = is_defined (patterns c)
  /\ length (default [] (patterns (foldl (react env) c ss)))
     = length (default [] (patterns c))
  /\ forall (i : nat) (q : string),
       default [] (patterns c) !! i = Some (PString q)
       <-> default [] (patterns (foldl (react env) c ss)) !! i = Some (PString q).
Proof.
  revert c. induction ss as [|s ss IH]; intros c; simpl; [done|].
  destruct (IH (react env c s)) as (-> & -> & Hstr).
  assert (Hstep : is_defined (patterns (react env c s)) = is_defined (patterns c)
                  /\ length (default [] (patterns (react env c s)))
                     = length (default [] (patterns c))
                  /\ forall (i : nat) (q : string),
                       default [] (patterns c) !! i = Some (PString q)
                       <-> default [] (patterns (react env c s)) !! i = Some (PString q)).
  { destruct (react_patterns env c s) as [-> | [m ->]]; [done|].
    apply isMatchPatterns_shape. }
  destruct Hstep as (-> & -> & Hstep).
  split; [done|]. split; [done|].
  intros i q. by rewrite Hstep, Hstr.
Qed.

(** *** Readiness along a run *)

Lemma all_resolved_run env c ss :
  all_resolved (foldl (react env) c ss)
  = (selectorsResolved c || existsb (is_event Event.selectorsExist) ss)
    && (predicateResolved c || existsb (is_event Event.predicateResolved) ss)
    && (networkResolved c || existsb (is_event Event.networkResolved) ss).
Proof.
  unfold all_resolved. by destruct (run_flags env c ss) as (-> & -> & ->).
Qed.

Lemma all_resolved_stays env c ss :
  all_resolved c = true -> all_resolved (foldl (react env) c ss) = true.
Proof.
  rewrite all_resolved_run. unfold all_resolved.
  rewrite !andb_true_iff. by intros [[-> ->] ->].
Qed.

Lemma check_resolved env c s :
  is_check s = true -> resolved_after s c = all_resolved (react env c s).
Proof.
  unfold all_resolved.
  destruct (react_flags env c s) as (-> & -> & ->).
  destruct s as [o|[]|[|err]]; simpl; try done;
    rewrite ?orb_false_r, ?orb_true_r, ?andb_true_r; done.
Qed.

Lemma quiet_signal env c s :
  is_check s = false -> is_error_event s = false -> react env c s = c.
Proof. by destruct s as [o|[]|[|err]]. Qed.

Lemma error_of_quiet env c s : is_error_event s = false -> error_of env c s = None.
Proof. by destruct s as [o|[]|[|err]]. Qed.

Lemma error_of_caused env c s (err : Error) :
  error_of env c s = Some err -> caused env s err.
Proof.
  destruct s as [o|[e|e|e|m| | |]|[|e]]; simpl; try done; try by intros [= <-].
  unfold unfiltered.
  destruct (truthy (env_failOnNetworkError env)); simpl; [|done].
  destruct (env_shouldThrowError env m); rewrite ?andb_false_r; [|done].
  destruct (negb _); simpl; [|done]. by intros [= <-].
Qed.

(** A fulfilled run has passed a check with the three flags true. *)
Lemma fulfilled_inv env c ss :
  promise (foldl (react env) c ss) = fulfilled ->
  promise c = fulfilled
  \/ (all_resolved (foldl (react env) c ss) = true /\ existsb is_check ss = true).
Proof.
  revert c. induction ss as [|s ss IH]; intros c; simpl; [auto|].
  intros Hf. destruct (IH _ Hf) as [Hs | [Hall Hex]].
  - destruct (promise c) eqn:Hp.
    + rewrite (react_verdict env c s Hp) in Hs. unfold verdict in Hs.
      destruct (error_of env c s); [done|].
      destruct (is_check s) eqn:Hc; simpl in Hs; [|done].
      rewrite (check_resolved env) in Hs by done.
      destruct (all_resolved (react env c s)) eqn:Hall; [|done].
      right. split; [by apply all_resolved_stays | done].
    + by left.
    + rewrite react_settled in Hs by (by rewrite Hp). by rewrite Hp in Hs.
  - right. split; [done|]. by rewrite Hex, orb_true_r.
Qed.

(** A rejected run contains the cause of its rejection. *)
Lemma rejected_inv env c ss (err : Error) :
  promise (foldl (react env) c ss) = rejected err ->
  promise c = rejected err \/ exists s, s ∈ ss /\ caused env s err.
Proof.
  revert c. induction ss as [|s ss IH]; intros c; simpl; [auto|].
  intros Hr. destruct (IH _ Hr) as [Hs | (s' & Hin & Hc)].
  - destruct (promise c) eqn:Hp.
    + rewrite (react_verdict env c s Hp) in Hs. unfold verdict in Hs.
      destruct (error_of env c s) as [e|] eqn:He.
      * injection Hs as ->. right. exists s. split; [left|].
        by apply (error_of_caused env c).
      * by destruct (_ && _).
    + rewrite react_settled in Hs by (by rewrite Hp). by rewrite Hp in Hs.
    + rewrite react_settled in Hs by (by rewrite Hp). rewrite Hp in Hs. by left.
  - right. exists s'. split; [by right | done].
Qed.

(** Without error events a pending run is fulfilled exactly when it has
    passed a check and ends with the three flags true. *)
Lemma error_free_run env c ss :
  promise c = pending ->
  existsb is_error_event ss = false ->
  promise (foldl (react env) c ss)
  = if existsb is_check ss && all_resolved (foldl (react env) c ss)
    then fulfilled else pending.
Proof.
  induction ss as [|s ss IH] using rev_ind; intros Hp Hq.
  - simpl. by rewrite Hp.
  - rewrite existsb_app in Hq. simpl in Hq. rewrite orb_false_r in Hq.
    apply orb_false_iff in Hq as [Hq Hs].
    specialize (IH Hp Hq).
    rewrite foldl_app. simpl. rewrite existsb_app. simpl. rewrite orb_false_r.
    set (c' := foldl (react env) c ss) in *.
    destruct (is_check s) eqn:Hc.
    + rewrite orb_true_r. simpl.
      destruct (is_pending (promise c')) eqn:Hpend.
      * assert (Hp' : promise c' = pending) by (by destruct (promise c')).
        rewrite (react_verdict env c' s Hp'). unfold verdict.
        rewrite (error_of_quiet env c' s Hs), Hc. simpl.
        by rewrite (check_resolved env).
      * rewrite react_settled by done. rewrite IH.
        rewrite IH in Hpend.
        destruct (existsb is_check ss && all_resolved c') eqn:Hb; [|done].
        apply andb_true_iff in Hb as [_ Hall].
        change (react env c' s) with (foldl (react env) c' [s]).
        by rewrite (all_resolved_stays env c' [s] Hall).
    + rewrite (quiet_signal env c' s Hc Hs), orb_false_r. exact IH.
Qed.

Lemma existsb_Permutation {A} (f : A -> bool) (l l' : list A) :
  Permutation l l' -> existsb f l = existsb f l'.
Proof.
  induction 1 as [|x l l' _ IH|x y l|l l' l'' _ IH1 _ IH2]; simpl.
  - done.
  - by rewrite IH.
  - by rewrite !orb_assoc, (orb_comm (f y)).
  - by rewrite IH1.
Qed.

Lemma openAndWait_nonblank config (uri : string) (opts : WaitOpts Predicate) :
  uri <> "" -> uri <> emptyPageUrl ->
  openAndWait config uri opts
  = {| calls :=
         new_PageLoader
           {| pl_selectors := selectors_of (selector opts);
              pl_predicate := predicate opts;
              pl_timeout :=
                or_default (timeout opts)
                  (or_number (openAndWaitOpts config ≫= cfg_timeout)
                             (Some (pageLoadTimeout config)));
              pl_waitNetworkIdle := effective_waitNetworkIdle config opts;
              pl_waitNetworkIdleTimeout :=
                or_default (waitNetworkIdleTimeout opts)
                  (cfg_waitNetworkIdleTimeout <$> openAndWaitOpts config) |}
         :: (pageLoader_on <$> subscriptions) ++ [pageLoader_load uri];
       running :=
         Loading (env_of config opts)
           {| selectorsResolved := (length (selectors_of (selector opts)) =? 0)%nat;
              predicateResolved := negb (is_defined (predicate opts));
              networkResolved := negb (truthy (effective_waitNetworkIdle config opts));
              patterns :=
                or_default (ignoreNetworkErrorsPatterns opts)
                  (cfg_ignoreNetworkErrorsPatterns <$> openAndWaitOpts config);
              promise := pending |} |}.
Proof.
  intros Hne1 Hne2. unfold openAndWait.
  destruct (String.eqb uri "" || String.eqb uri emptyPageUrl) eqn:Hblank; [|done].
  apply blank_iff in Hblank. tauto.
Qed.

Lemma openAndWait_blank config (uri : string) (opts : WaitOpts Predicate) :
  uri = "" \/ uri = emptyPageUrl ->
  openAndWait config uri opts
  = {| calls := [session_url uri]; running := Navigating pending |}.
Proof.
  intros Hblank. apply blank_iff in Hblank. unfold openAndWait. by rewrite Hblank.
Qed.

Lemma blank_or_not (uri : string) :
  (uri = "" \/ uri = emptyPageUrl) \/ (uri <> "" /\ uri <> emptyPageUrl).
Proof.
  destruct (String.eqb uri "" || String.eqb uri emptyPageUrl) eqn:Hblank.
  - left. by apply blank_iff.
  - right. apply orb_false_iff in Hblank as [H1 H2].
    split; intros ->; simpl in *; done.
Qed.

(** *** Properties *)

(** X1. [isMatchPatterns] answers true exactly when the array is defined and
    holds a string contained in the URL or a regular expression whose
    execution against the URL succeeds; an undefined or empty array ignores
    nothing. *)
Theorem isMatchPatterns_true_iff (o : option (list Pattern)) (str : string) :
  fst (isMatchPatterns o str) = true
  <-> exists ps,
      o = Some ps
      /\ ((exists q a b : string, PString q ∈ ps /\ str = a +:+ q +:+ b)
          \/ (exists re res, PRegExp re ∈ ps /\ fst (exec re str) = Some res)).
Proof.
  rewrite isMatchPatterns_fst, existsb_exists. split.
  - intros (p & Hin & Hm). destruct o as [ps|]; simpl in Hin; [|done].
    exists ps. split; [done|]. apply list_elem_of_In in Hin.
    destruct p as [q|re]; simpl in Hm.
    + left. apply includes_spec in Hm as (a & b & ->). by exists q, a, b.
    + right. destruct (fst (exec re str)) as [res|] eqn:He; [|done]. by exists re, res.
  - intros (ps & -> & [(q & a & b & Hin & ->) | (re & res & Hin & He)]); simpl.
    + exists (PString q). split; [by apply list_elem_of_In|].
      simpl. apply includes_spec. by exists a, b.
    + exists (PRegExp re). split; [by apply list_elem_of_In|]. simpl. by rewrite He.
Qed.

(** X2. The empty string is contained in every URL: with it among the ignore
    patterns no failing match ever changes the outcome of the command. *)
Theorem empty_string_pattern_ignores_everything
    config (uri : string) (opts : WaitOpts Predicate) ps ss m :
  or_default (ignoreNetworkErrorsPatterns opts)
             (cfg_ignoreNetworkErrorsPatterns <$> openAndWaitOpts config) = Some ps ->
  PString "" ∈ ps ->
  outcome (deliver (deliver_all (running (openAndWait config uri opts)) ss)
                   (emitted (Event.networkError m)))
  = outcome (deliver_all (running (openAndWait config uri opts)) ss).
Proof.
  intros Hps Hin.
  destruct (blank_or_not uri) as [Hb | [Hne1 Hne2]].
  - rewrite (openAndWait_blank config uri opts Hb). simpl.
    by rewrite deliver_all_Navigating.
  - rewrite (openAndWait_nonblank config uri opts Hne1 Hne2). simpl.
    rewrite deliver_all_Loading. simpl.
    rewrite onNetworkError_promise.
    match goal with
    | |- context [unfiltered ?e ?c m] =>
        assert (Hun : unfiltered e c m = false); [|by rewrite Hun]
    end.
    unfold unfiltered.
    match goal with
    | |- context [existsb ?f ?l] => assert (Hex : existsb f l = true)
    end.
    { apply existsb_exists. exists (PString ""). split.
      - apply list_elem_of_In, run_keeps_strings. simpl. by rewrite Hps.
      - apply includes_empty. }
    rewrite Hex. by rewrite andb_false_r.
Qed.

(** X3. [some] stops at the first pattern that matches: the patterns before
    it did not match and were tried, the patterns after it are left as they
    were. When nothing matches every pattern has been tried. *)
Theorem some_pattern_short_circuit ps (str : string) (found : bool) ps' :
  some_pattern ps str = (found, ps') ->
  (found = true ->
   exists (pre : list Pattern) (p : Pattern) (post : list Pattern),
     ps = (pre ++ p :: post)%list
     /\ Forall (fun q => pattern_matches q str = false) pre
     /\ pattern_matches p str = true
     /\ ps' = (((fun q => snd (test_pattern str q)) <$> pre)
               ++ snd (test_pattern str p) :: post)%list)
  /\ (found = false ->
      Forall (fun q => pattern_matches q str = false) ps
      /\ ps' = (fun q => snd (test_pattern str q)) <$> ps).
Proof.
  revert found ps'. induction ps as [|p ps IH]; intros found ps'; simpl.
  - intros [= <- <-]. split; [done|]. intros _. split; constructor.
  - pose proof (test_pattern_fst str p) as Hfst.
    destruct (test_pattern str p) as [hit p'] eqn:Ht; simpl in Hfst.
    destruct hit.
    + intros [= <- <-]. split; [|done]. intros _.
      exists [], p, ps. split; [done|]. split; [constructor|].
      split; [done|]. simpl. by rewrite Ht.
    + destruct (some_pattern ps str) as [found0 rest] eqn:Hs.
      intros [= <- <-]. destruct (IH found0 rest eq_refl) as [IHt IHf].
      split.
      * intros Hfound. destruct (IHt Hfound) as (pre & q & post & -> & Hpre & Hq & ->).
        exists (p :: pre), q, post. split; [done|].
        split; [by constructor|]. split; [done|]. simpl. by rewrite Ht.
      * intros Hfound. destruct (IHf Hfound) as [Hall ->].
        split; [by constructor|done].
Qed.

(** X4. A run never adds, removes or moves a pattern: the array keeps its
    length and every string pattern stays where it is; only the state of
    regular expressions can change. *)
Theorem run_keeps_pattern_array
    config (uri : string) (opts : WaitOpts Predicate) ss :
  let r0 := running (openAndWait config uri opts) in
  length (current_patterns (deliver_all r0 ss)) = length (current_patterns r0)
  /\ forall (i : nat) (q : string),
       current_patterns r0 !! i = Some (PString q)
       <-> current_patterns (deliver_all r0 ss) !! i = Some (PString q).
Proof.
  intros r0. destruct r0 as [p|env c].
  - by rewrite deliver_all_Navigating.
  - rewrite deliver_all_Loading. simpl.
    destruct (run_patterns_shape env c ss) as (_ & Hlen & Hstr). by split.
Qed.

Lemma accept_includes_spec m (kind : string) :
  truthy (accept_includes m kind) = true
  <-> exists (h : gmap string string) (acc a b : string),
      headers m = Some h /\ h !! "Accept" = Some acc /\ acc = a +:+ kind +:+ b.
Proof.
  unfold accept_includes. split.
  - destruct (headers m) as [h|]; simpl; [|done].
    destruct (h !! "Accept") as [acc|] eqn:Hacc; simpl; [|done].
    intros Hinc. apply includes_spec in Hinc as (a & b & Hab). by exists h, acc, a, b.
  - intros (h & acc & a & b & -> & Hacc & ->). simpl. rewrite Hacc. simpl.
    apply includes_spec. by exists a, b.
Qed.

Lemma font_spec m :
  is_.font m = true
  <-> exists p : string,
      url m = p +:+ ".ttf" \/ url m = p +:+ ".woff" \/ url m = p +:+ ".woff2".
Proof.
  unfold is_.font. simpl. rewrite orb_false_r, !orb_true_iff, !endsWith_spec.
  split.
  - intros [[p Hp] | [[p Hp] | [p Hp]]]; exists p; auto.
  - intros [p [Hp | [Hp | Hp]]]; eauto.
Qed.

(** X5. The default classification asks to throw exactly for a match whose
    URL does not end in "/favicon.ico" and that has an Accept header
    containing "image" or "text/css" or a URL ending in ".ttf", ".woff" or
    ".woff2". *)
Theorem shouldThrowErrorDefault_spec m :
  shouldThrowErrorDefault m = true
  <-> (forall p : string, url m = p +:+ "/favicon.ico" -> False)
      /\ ((exists (h : gmap string string) (acc a b : string),
             headers m = Some h /\ h !! "Accept" = Some acc
             /\ (acc = a +:+ "image" +:+ b \/ acc = a +:+ "text/css" +:+ b))
          \/ (exists p : string,
                url m = p +:+ ".ttf" \/ url m = p +:+ ".woff"
                \/ url m = p +:+ ".woff2")).
Proof.
  unfold shouldThrowErrorDefault, is_.image, is_.stylesheet, is_.favicon.
  destruct (endsWith (url m) "/favicon.ico") eqn:Hfav.
  - split; [done|]. intros [Hno _]. apply endsWith_spec in Hfav as [p Hp].
    destruct (Hno p Hp).
  - rewrite !orb_true_iff, !accept_includes_spec, font_spec. split.
    + intros H. split.
      * intros p Hp. assert (endsWith (url m) "/favicon.ico" = true)
          by (apply endsWith_spec; eauto). congruence.
      * destruct H as [[(h & acc & a & b & ? & ? & ?) | (h & acc & a & b & ? & ? & ?)] | ?];
          [left; exists h, acc, a, b; auto | left; exists h, acc, a, b; auto | by right].
    + intros [_ [(h & acc & a & b & ? & ? & [? | ?]) | ?]];
        [left; left; by exists h, acc, a, b
        | left; right; by exists h, acc, a, b | by right].
Qed.

(** X6. A match without headers or without a header named exactly "Accept"
    is classified by its URL alone: the default classification asks to throw
    for it iff it is a font and not the favicon. *)
Theorem default_classification_without_accept_header m :
  (forall h : gmap string string, headers m = Some h -> h !! "Accept" = None) ->
  shouldThrowErrorDefault m = negb (is_.favicon m) && is_.font m.
Proof.
  intros Hno. unfold shouldThrowErrorDefault, is_.image, is_.stylesheet, accept_includes.
  destruct (headers m) as [h|]; simpl.
  - rewrite (Hno h eq_refl). simpl. by destruct (is_.favicon m).
  - by destruct (is_.favicon m).
Qed.

(** X7. The page loader always gets a timeout: the caller's when there is
    one, zero included; else the session's [openAndWaitOpts.timeout] unless
    it is missing or zero; else [pageLoadTimeout]. *)
Theorem page_loader_timeout
    config (uri : string) (opts : WaitOpts Predicate) (o : PageLoaderOpts) :
  new_PageLoader o ∈ calls (openAndWait config uri opts) ->
  pl_timeout o
  = Some match timeout opts with
         | Some t => t
         | None =>
             match openAndWaitOpts config ≫= cfg_timeout with
             | Some t => if (t =? 0)%Z then pageLoadTimeout config else t
             | None => pageLoadTimeout config
             end
         end.
Proof.
  destruct (blank_or_not uri) as [Hb | [Hne1 Hne2]].
  - rewrite (openAndWait_blank config uri opts Hb). simpl.
    intros Hin. apply list_elem_of_singleton in Hin. discriminate.
  - rewrite (openAndWait_nonblank config uri opts Hne1 Hne2). simpl.
    intros Hin. apply elem_of_cons in Hin as [[= ->] | Hin].
    + simpl. unfold or_default, or_number, truthy_number.
      destruct (timeout opts); [done|].
      destruct (openAndWaitOpts config ≫= cfg_timeout) as [t|]; [|done].
      by destruct (t =? 0)%Z.
    + repeat (apply elem_of_cons in Hin as [Hin|Hin]; [discriminate|]).
      by apply elem_of_nil in Hin.
Qed.

(** X9. A readiness flag that is true stays true for the rest of the
    invocation. *)
Theorem readiness_flags_never_reset
    config (uri : string) (opts : WaitOpts Predicate) ss ss' :
  let r := deliver_all (running (openAndWait config uri opts)) ss in
  let r' := deliver_all (running (openAndWait config uri opts)) (ss ++ ss') in
  (flag selectorsResolved r = true -> flag selectorsResolved r' = true)
  /\ (flag predicateResolved r = true -> flag predicateResolved r' = true)
  /\ (flag networkResolved r = true -> flag networkResolved r' = true).
Proof.
  intros r r'. unfold r'. rewrite deliver_all_app. fold r.
  destruct r as [p|env c].
  - by rewrite deliver_all_Navigating.
  - rewrite deliver_all_Loading. simpl.
    destruct (run_flags env c ss') as (-> & -> & ->).
    repeat split; by intros ->.
Qed.

(** X10. A command for a page other than the blank one is fulfilled only
    after a check (a resolution of a watcher or the completion of [load]) and
    only when every feature it was asked to wait for has resolved: the
    selectors when there are any, the predicate when there is one, the
    network when the effective [waitNetworkIdle] is on. *)
Theorem fulfilled_only_when_ready
    config (uri : string) (opts : WaitOpts Predicate) ss :
  uri <> "" -> uri <> emptyPageUrl ->
  outcome (deliver_all (running (openAndWait config uri opts)) ss) = fulfilled ->
  existsb is_check ss = true
  /\ (selectors_of (selector opts) <> [] ->
      existsb (is_event Event.selectorsExist) ss = true)
  /\ (is_defined (predicate opts) = true ->
      existsb (is_event Event.predicateResolved) ss = true)
  /\ (truthy (effective_waitNetworkIdle config opts) = true ->
      existsb (is_event Event.networkResolved) ss = true).
Proof.
  intros Hne1 Hne2. rewrite (openAndWait_nonblank config uri opts Hne1 Hne2). simpl.
  rewrite deliver_all_Loading. simpl. intros Hf.
  apply fulfilled_inv in Hf as [Hf | [Hall Hex]]; [done|].
  rewrite all_resolved_run in Hall. simpl in Hall.
  apply andb_true_iff in Hall as [Hall Hnet].
  apply andb_true_iff in Hall as [Hsel Hpred].
  split; [done|]. split; [|split].
  - intros Hs. destruct (selectors_of (selector opts)); [done|]. by simpl in Hsel.
  - intros Hp. by rewrite Hp in Hpred.
  - intros Hn. by rewrite Hn in Hnet.
Qed.

(** X11. In a run without error events a command for a page other than the
    blank one is fulfilled exactly when the run holds a check and, for every
    feature asked for, the resolution of its watcher; otherwise it is still
    pending. *)
Theorem error_free_run_outcome
    config (uri : string) (opts : WaitOpts Predicate) ss :
  uri <> "" -> uri <> emptyPageUrl ->
  existsb is_error_event ss = false ->
  outcome (deliver_all (running (openAndWait config uri opts)) ss)
  = if existsb is_check ss
       && ((length (selectors_of (selector opts)) =? 0)%nat
           || existsb (is_event Event.selectorsExist) ss)
       && (negb (is_defined (predicate opts))
           || existsb (is_event Event.predicateResolved) ss)
       && (negb (truthy (effective_waitNetworkIdle config opts))
           || existsb (is_event Event.networkResolved) ss)
    then fulfilled else pending.
Proof.
  intros Hne1 Hne2 Hq. rewrite (openAndWait_nonblank config uri opts Hne1 Hne2). simpl.
  rewrite deliver_all_Loading. simpl.
  rewrite error_free_run by done. rewrite all_resolved_run. simpl.
  by rewrite !andb_assoc.
Qed.

(** X12. Without error events the outcome does not depend on the order in
    which the signals arrive. *)
Theorem outcome_insensitive_to_order
    config (uri : string) (opts : WaitOpts Predicate) ss ss' :
  Permutation ss ss' ->
  existsb is_error_event ss = false ->
  outcome (deliver_all (running (openAndWait config uri opts)) ss)
  = outcome (deliver_all (running (openAndWait config uri opts)) ss').
Proof.
  intros Hperm Hq.
  assert (Hq' : existsb is_error_event ss' = false)
    by (by rewrite <- (existsb_Permutation _ _ _ Hperm)).
  destruct (blank_or_not uri) as [Hb | [Hne1 Hne2]].
  - rewrite (openAndWait_blank config uri opts Hb). simpl.
    rewrite !deliver_all_Navigating. simpl.
    by rewrite (existsb_Permutation _ _ _ Hperm).
  - rewrite (openAndWait_nonblank config uri opts Hne1 Hne2). simpl.
    rewrite !deliver_all_Loading. simpl.
    rewrite !error_free_run, !all_resolved_run by done.
    by rewrite !(existsb_Permutation _ _ _ Hperm).
Qed.

(** X13. A rejected command names its cause: the run holds an error event
    whose message the rejection carries after "url: ", or a failing match
    for which failing on network errors was on and the classification asked
    to throw, with its URL and status code in the message. Every rejection
    message starts with "url: ". *)
Theorem rejection_names_its_cause
    config (uri : string) (opts : WaitOpts Predicate) ss (err : Error) :
  outcome (deliver_all (running (openAndWait config uri opts)) ss) = rejected err ->
  (exists s, s ∈ ss /\ caused (env_of config opts) s err)
  /\ exists rest : string, message err = "url: " +:+ rest.
Proof.
  intros Hr.
  assert (Hc : exists s, s ∈ ss /\ caused (env_of config opts) s err).
  { destruct (blank_or_not uri) as [Hb | [Hne1 Hne2]].
    - rewrite (openAndWait_blank config uri opts Hb) in Hr. simpl in Hr.
      rewrite deliver_all_Navigating in Hr. simpl in Hr. by destruct (existsb _ _).
    - rewrite (openAndWait_nonblank config uri opts Hne1 Hne2) in Hr. simpl in Hr.
      rewrite deliver_all_Loading in Hr. simpl in Hr.
      by apply rejected_inv in Hr as [Hr | Hr]. }
  split; [done|].
  destruct Hc as (s & _ & Hc).
  destruct s as [o|[e|e|e|m| | |]|o]; simpl in Hc; try done.
  - rewrite Hc. by exists (message e).
  - rewrite Hc. by exists (message e).
  - rewrite Hc. by exists (message e).
  - destruct Hc as (_ & _ & ->). simpl.
    by exists ("couldn't get content from " +:+ url m +:+ ": " +:+ pretty (statusCode m)).
Qed.

End Coverage.

(** X14. The values of [BrowserEventNames] are pairwise different, whatever
    the prefix is. *)
Theorem BrowserEventNames_values_distinct (BROWSER_EVENT_PREFIX : string) :
  NoDup (BrowserEventNames.value BROWSER_EVENT_PREFIX <$> BrowserEventNames.members).
Proof.
  assert (Hne : forall a b : string,
             a <> b -> BROWSER_EVENT_PREFIX +:+ a <> BROWSER_EVENT_PREFIX +:+ b).
  { intros a b Hab Heq. by apply Hab, (append_inj_l BROWSER_EVENT_PREFIX). }
  simpl. repeat (apply NoDup_cons; split);
    [..|apply NoDup_nil_2];
    rewrite ?not_elem_of_cons; repeat split;
    try apply not_elem_of_nil; by apply Hne.
Qed.

(** ** The further properties at sample inputs *)

Lemma isMatchPatterns_true_iff_cdn :
  fst (isMatchPatterns (RE := literal_engine)
         (Some [PString "cdn.example.com"]) "https://cdn.example.com/x.js") = true.
Proof.
  apply (isMatchPatterns_true_iff (RE := literal_engine)).
  exists [PString "cdn.example.com"]. split; [reflexivity|].
  left. exists "cdn.example.com", "https://", "/x.js". split; [left | reflexivity].
Defined.

Lemma empty_string_pattern_ignores_image :
  PString "" ∈ [PString (RE := literal_engine) ""]
  /\ outcome (deliver (deliver_all (running (openAndWait chrome_config example_uri
                                                        (strict [PString ""])))
                                   [])
                      (emitted (Event.networkError image_match)))
     = pending.
Proof.
  assert (Hin : PString "" ∈ [PString (RE := literal_engine) ""]) by left.
  split; [exact Hin|].
  rewrite (empty_string_pattern_ignores_everything chrome_config example_uri
             (strict [PString ""]) [PString ""] [] image_match eq_refl Hin).
  reflexivity.
Defined.

Lemma some_pattern_short_circuit_second_of_three :
  some_pattern [PString "zzz"; cdn_regexp; cdn_regexp] (url cdn_match)
  = (true, [PString "zzz";
            PRegExp (RE := literal_engine)
              {| source := "cdn"; global := true; lastIndex := 11 |};
            cdn_regexp])
  /\ exists (pre : list Pattern) (p : Pattern) (post : list Pattern),
      [PString "zzz"; cdn_regexp; cdn_regexp] = (pre ++ p :: post)%list
      /\ Forall (fun q => pattern_matches q (url cdn_match) = false) pre
      /\ pattern_matches p (url cdn_match) = true
      /\ [PString "zzz";
          PRegExp (RE := literal_engine)
            {| source := "cdn"; global := true; lastIndex := 11 |};
          cdn_regexp]
         = (((fun q => snd (test_pattern (url cdn_match) q)) <$> pre)
            ++ snd (test_pattern (url cdn_match) p) :: post)%list.
Proof.
  assert (Hrun : some_pattern [PString "zzz"; cdn_regexp; cdn_regexp] (url cdn_match)
                 = (true, [PString "zzz";
                           PRegExp (RE := literal_engine)
                             {| source := "cdn"; global := true; lastIndex := 11 |};
                           cdn_regexp])) by reflexivity.
  split; [exact Hrun|].
  exact (proj1 (some_pattern_short_circuit _ _ _ _ Hrun) eq_refl).
Defined.

Lemma shouldThrowErrorDefault_spec_image :
  shouldThrowErrorDefault image_match = true.
Proof.
  apply shouldThrowErrorDefault_spec. split.
  - intros p Hp.
    assert (Hends : endsWith (url image_match) "/favicon.ico" = true)
      by (apply endsWith_spec; exists p; exact Hp).
    discriminate Hends.
  - left. exists {[ "Accept" := "image/png" ]}, "image/png", "", "/png".
    split; [reflexivity|]. split; [reflexivity|]. left. reflexivity.
Defined.

Lemma lowercase_accept_is_not_an_image :
  (forall h : gmap string string,
      headers lowercase_accept_match = Some h -> h !! "Accept" = None)
  /\ shouldThrowErrorDefault lowercase_accept_match = false.
Proof.
  assert (Hno : forall h : gmap string string,
             headers lowercase_accept_match = Some h -> h !! "Accept" = None).
  { intros h Hh. injection Hh as <-. reflexivity. }
  split; [exact Hno|].
  rewrite (default_classification_without_accept_header lowercase_accept_match Hno).
  reflexivity.
Defined.

Lemma page_loader_timeout_zero_of_caller :
  let o := {| pl_selectors := [""]; pl_predicate := @None string;
              pl_timeout := Some 0%Z; pl_waitNetworkIdle := Some false;
              pl_waitNetworkIdleTimeout := Some 500%Z |} in
  new_PageLoader o ∈ calls (openAndWait chrome_config example_uri (with_timeout 0))
  /\ pl_timeout o = Some 0%Z.
Proof.
  intros o.
  assert (Hin : new_PageLoader o
                ∈ calls (openAndWait chrome_config example_uri (with_timeout 0)))
    by left.
  split; [exact Hin|].
  exact (page_loader_timeout chrome_config example_uri (with_timeout 0) o Hin).
Defined.

Lemma readiness_flags_never_reset_after_error :
  let r := deliver_all (running (openAndWait chrome_config example_uri waiting_for_all))
                       [emitted Event.selectorsExist] in
  let r' := deliver_all (running (openAndWait chrome_config example_uri waiting_for_all))
                        ([emitted Event.selectorsExist]
                         ++ [emitted (Event.predicateError {| message := "boom" |})]) in
  flag selectorsResolved r = true /\ flag selectorsResolved r' = true.
Proof.
  intros r r'.
  assert (Hr : flag selectorsResolved r = true) by reflexivity.
  split; [exact Hr|].
  exact (proj1 (readiness_flags_never_reset chrome_config example_uri waiting_for_all
                  [emitted Event.selectorsExist]
                  [emitted (Event.predicateError {| message := "boom" |})]) Hr).
Defined.

Lemma fulfilled_only_when_ready_waiting_for_all :
  let ss := [load_settled Done; emitted Event.selectorsExist;
             emitted Event.predicateResolved; emitted Event.networkResolved] in
  outcome (deliver_all (running (openAndWait chrome_config example_uri waiting_for_all)) ss)
  = fulfilled
  /\ existsb is_check ss = true
  /\ existsb (is_event Event.selectorsExist) ss = true
  /\ existsb (is_event Event.predicateResolved) ss = true
  /\ existsb (is_event Event.networkResolved) ss = true.
Proof.
  intros ss.
  assert (Hf : outcome (deliver_all (running (openAndWait chrome_config example_uri
                                                         waiting_for_all)) ss)
               = fulfilled) by reflexivity.
  split; [exact Hf|].
  destruct (fulfilled_only_when_ready chrome_config example_uri waiting_for_all ss)
    as (Hc & Hs & Hp & Hn); [discriminate | discriminate | exact Hf |].
  split; [exact Hc|]. split; [apply Hs; discriminate|].
  split; [apply Hp; reflexivity | apply Hn; reflexivity].
Defined.

Lemma error_free_run_outcome_still_waiting :
  let ss := [emitted Event.selectorsExist; emitted Event.predicateResolved;
             load_settled Done] in
  existsb is_error_event ss = false
  /\ outcome (deliver_all (running (openAndWait chrome_config example_uri waiting_for_all)) ss)
     = pending.
Proof.
  intros ss. split; [reflexivity|].
  rewrite (error_free_run_outcome chrome_config example_uri waiting_for_all ss).
  - reflexivity.
  - discriminate.
  - discriminate.
  - reflexivity.
Defined.

Lemma outcome_insensitive_to_order_swap :
  let ss := [emitted Event.networkResolved; emitted Event.selectorsExist;
             emitted Event.predicateResolved] in
  let ss' := [emitted Event.selectorsExist; emitted Event.networkResolved;
              emitted Event.predicateResolved] in
  Permutation ss ss'
  /\ outcome (deliver_all (running (openAndWait chrome_config example_uri waiting_for_all)) ss)
     = outcome (deliver_all (running (openAndWait chrome_config example_uri waiting_for_all)) ss').
Proof.
  intros ss ss'.
  assert (Hperm : Permutation ss ss') by apply perm_swap.
  split; [exact Hperm|].
  exact (outcome_insensitive_to_order chrome_config example_uri waiting_for_all
           ss ss' Hperm eq_refl).
Defined.

Lemma rejection_names_its_cause_predicate_error :
  let ss := [emitted Event.selectorsExist;
             emitted (Event.predicateError {| message := "boom" |});
             emitted (Event.networkError image_match)] in
  outcome (deliver_all (running (openAndWait chrome_config example_uri waiting_for_all)) ss)
  = rejected {| message := "url: boom" |}
  /\ exists rest : string, message {| message := "url: boom" |} = "url: " +:+ rest.
Proof.
  intros ss.
  assert (Hr : outcome (deliver_all (running (openAndWait chrome_config example_uri
                                                         waiting_for_all)) ss)
               = rejected {| message := "url: boom" |}) by reflexivity.
  split; [exact Hr|].
  exact (proj2 (rejection_names_its_cause chrome_config example_uri waiting_for_all
                  ss {| message := "url: boom" |} Hr)).
Defined.
